(** * The in-memory filesystem (MemMapFs) and the archive backend (zipfs)

    A shallow embedding of [memmap.go] (package afero) and [zipfs/fs.go].
    The table [map[string]*mem.FileData] is a finite map from canonical paths
    to addresses of a store of file objects, so that two keys naming one
    object (as happens inside [lockFreeRename]) really alias. *)

From Stdlib Require Import ZArith Ascii String List Lia.
From stdpp Require Import gmap strings list fin_maps.

Local Open Scope string_scope.
Local Open Scope Z_scope.

(** ** Go's [path/filepath] on slash-separated paths

    [Clean], [Split], [Dir] and [Join] belong to Go's standard library; they
    are rendered here on [string] by splitting a path into its elements. *)
Module filepath.

Definition Separator : ascii := "/"%char.
Definition IsPathSeparator (c : ascii) : bool := Ascii.eqb c Separator.

(** The elements of a path: the maximal runs between separators. *)
Fixpoint elems (path : string) : list string :=
  match path with
  | EmptyString => [""]
  | String c rest =>
      if IsPathSeparator c then "" :: elems rest
      else match elems rest with
           | e :: es => String c e :: es
           | [] => [String c ""]
           end
  end.

Definition rootedPath (path : string) : bool :=
  match path with
  | String c _ => IsPathSeparator c
  | EmptyString => false
  end.

(** One turn of the loop of [Clean]; [out] holds the elements kept so far,
    the last one first. *)
Definition cleanStep (rooted : bool) (out : list string) (e : string) : list string :=
  if String.eqb e "" || String.eqb e "." then out
  else if String.eqb e ".." then
    match out with
    | top :: out' =>
        if negb rooted && String.eqb top ".." then e :: out else out'
    | [] => if rooted then [] else [e]
    end
  else e :: out.

Definition cleanElems (rooted : bool) (es : list string) : list string :=
  rev (fold_left (cleanStep rooted) es []).

Definition Clean (path : string) : string :=
  if String.eqb path "" then "."
  else
    let body := String.concat "/" (cleanElems (rootedPath path) (elems path)) in
    if rootedPath path then "/" +:+ body
    else if String.eqb body "" then "." else body.

(** [Split] cuts a path just after its last separator. *)
Fixpoint Split (path : string) : string * string :=
  match path with
  | EmptyString => ("", "")
  | String c rest =>
      let '(d, f) := Split rest in
      if String.eqb d "" then
        if IsPathSeparator c then (String c "", rest) else ("", String c rest)
      else (String c d, f)
  end.

Definition Dir (path : string) : string := Clean (fst (Split path)).

Definition Join (a b : string) : string :=
  if String.eqb a "" then (if String.eqb b "" then "" else Clean b)
  else Clean (a +:+ "/" +:+ b).

End filepath.

Module strings.
Definition HasPrefix (s prefix : string) : bool := String.prefix prefix s.
End strings.


(** ** Package [os]: file modes, open flags and errors *)
Module os.

Definition ModeDir : Z := 2 ^ 31.
Definition ModeSetuid : Z := 2 ^ 23.
Definition ModeSetgid : Z := 2 ^ 22.
Definition ModeSticky : Z := 2 ^ 20.
Definition ModePerm : Z := 511. (* 0777 *)

Definition O_RDONLY : Z := 0.
Definition O_WRONLY : Z := 1.
Definition O_RDWR : Z := 2.
Definition O_CREATE : Z := 64.
Definition O_EXCL : Z := 128.
Definition O_TRUNC : Z := 512.
Definition O_APPEND : Z := 1024.

(** The error values the two backends return.  [PathError] is
    [*os.PathError]; the others are the sentinel values of [os], of this
    package and of [syscall]. *)
Inductive error : Type :=
| ErrNotExist
| ErrExist
| ErrInvalid
| ErrNotDir
| ErrIsDir
| ErrNotEmpty
| ErrReadOnlyHandle
| EPERM
| ENOENT
| PathError (Op Path : string) (Err : error).

Definition underlyingError (err : error) : error :=
  match err with
  | PathError _ _ e => e
  | e => e
  end.

Definition IsNotExist (err : error) : bool :=
  match underlyingError err with
  | ErrNotExist | ENOENT => true
  | _ => false
  end.

End os.

Export os.

(** Modelled from the spec: the error values of package afero are declared
    outside [memmap.go].  `NotFound` and `AlreadyExists` are the two values of
    [os] that [os.IsNotExist] and [os.IsExist] recognise. *)
Definition ErrFileNotFound : error := ErrNotExist.
Definition ErrFileExists : error := ErrExist.

(** Modelled from the spec: [IsNotDir], declared outside [memmap.go], tells
    whether an error is of kind `NotADirectory`. *)
Definition IsNotDir (err : error) : bool :=
  match underlyingError err with
  | ErrNotDir => true
  | _ => false
  end.

Definition FilePathSeparator : string := "/".

Definition chmodBits : Z :=
  Z.lor (Z.lor (Z.lor ModePerm ModeSetuid) ModeSetgid) ModeSticky.

(** ** The machine the methods run on *)

(** An address of a file object ([*mem.FileData]). *)
Abbreviation ptr := nat (only parsing).

(** Modelled from the spec: the struct [mem.FileData] of package mem, whose
    source is not part of [memmap.go].  An entry has a canonical path, a kind,
    byte content, mode bits and a last-modified time; a directory owns the
    collection of its direct children's names (not full paths). *)
Record FileData : Type := mkFileData {
  name : string;
  content : list Byte.byte;
  memDir : option (gset string);
  dir : bool;
  mode : Z;
  modtime : Z
}.

(** A file handle ([*mem.File]): the object it is open on, whether it is
    read-only, and its offset. *)
Record File : Type := mkFile {
  fileData : ptr;
  readOnly : bool;
  at_ : Z
}.

(** [MemMapFs] with what its methods reach: [heap] is the memory holding the
    file objects the table points to, [data] the table, [init] whether the
    [sync.Once] has fired, [clock] what [time.Now()] returns. *)
Record MemMapFs : Type := mkFs {
  heap : list FileData;
  data : gmap string ptr;
  init : bool;
  clock : Z
}.

Definition setHeap (h : list FileData) (m : MemMapFs) : MemMapFs :=
  mkFs h (data m) (init m) (clock m).
Definition setTable (d : gmap string ptr) (m : MemMapFs) : MemMapFs :=
  mkFs (heap m) d (init m) (clock m).

(** A method call returns a value and the new state, or panics, or (for the
    two recursive walks) exceeds the depth it was given. *)
Inductive result (A : Type) : Type :=
| Ret (a : A) (m : MemMapFs)
| Panic (msg : string)
| OutOfFuel.
Arguments Ret {A} a m.
Arguments Panic {A} msg.
Arguments OutOfFuel {A}.

Definition M (A : Type) : Type := MemMapFs → result A.

Global Instance M_ret : MRet M := λ A a m, Ret a m.
Global Instance M_bind : MBind M := λ A B f c m,
  match c m with
  | Ret a m' => f a m'
  | Panic msg => Panic msg
  | OutOfFuel => OutOfFuel
  end.

Definition panic {A : Type} (msg : string) : M A := λ _, Panic msg.

Definition load (p : ptr) : M FileData := λ m,
  match heap m !! p with
  | Some fd => Ret fd m
  | None => Panic "invalid memory address or nil pointer dereference"
  end.

Definition store (p : ptr) (fd : FileData) : M unit := λ m,
  Ret tt (setHeap (<[p := fd]> (heap m)) m).

Definition alloc (fd : FileData) : M ptr := λ m,
  Ret (length (heap m)) (setHeap (heap m ++ [fd]) m).

Definition timeNow : M Z := λ m, Ret (clock m) m.

Fixpoint forEach {A : Type} (l : list A) (body : A → M unit) : M unit :=
  match l with
  | [] => mret tt
  | x :: l' => body x;; forEach l' body
  end.

(** ** Package [mem] *)
Module mem.

(** Modelled from the spec: [mem.CreateFile], a fresh zero-length file. *)
Definition CreateFile (name : string) : M ptr :=
  now ← timeNow; alloc (mkFileData name [] None false 0 now).

(** Modelled from the spec: [mem.CreateDir], a fresh directory without
    children. *)
Definition CreateDir (name : string) : M ptr :=
  now ← timeNow; alloc (mkFileData name [] (Some ∅) true 0 now).

(** Modelled from the spec: [mem.SetMode] replaces the mode bits. *)
Definition SetMode (f : ptr) (mode' : Z) : M unit :=
  fd ← load f;
  store f (mkFileData (name fd) (content fd) (memDir fd) (dir fd) mode' (modtime fd)).

(** Modelled from the spec: [mem.SetModTime] replaces the modification time. *)
Definition SetModTime (f : ptr) (mtime : Z) : M unit :=
  fd ← load f;
  store f (mkFileData (name fd) (content fd) (memDir fd) (dir fd) (mode fd) mtime).

(** Modelled from the spec: [mem.ChangeFileName] replaces the stored path. *)
Definition ChangeFileName (f : ptr) (newname : string) : M unit :=
  fd ← load f;
  store f (mkFileData newname (content fd) (memDir fd) (dir fd) (mode fd) (modtime fd)).

(** The name an entry is listed under: the last element of its path. *)
Definition baseName (fd : FileData) : string := snd (filepath.Split (name fd)).

(** Modelled from the spec: [mem.InitializeDir] gives a parent that has no
    child collection an empty one, which makes it a directory. *)
Definition InitializeDir (d : ptr) : M unit :=
  fd ← load d;
  match memDir fd with
  | Some _ => mret tt
  | None =>
      store d (mkFileData (name fd) (content fd) (Some ∅) true (mode fd) (modtime fd))
  end.

(** Modelled from the spec: [mem.AddToMemDir] adds the child's name to the
    parent's child set (a parent without one has nothing to add to). *)
Definition AddToMemDir (parent f : ptr) : M unit :=
  child ← load f;
  fd ← load parent;
  match memDir fd with
  | Some names =>
      store parent (mkFileData (name fd) (content fd)
                      (Some ({[baseName child]} ∪ names)) (dir fd) (mode fd) (modtime fd))
  | None => mret tt
  end.

(** Modelled from the spec: [mem.RemoveFromMemDir] removes the child's name
    from the parent's child set (a parent without one has nothing to remove). *)
Definition RemoveFromMemDir (parent f : ptr) : M unit :=
  child ← load f;
  fd ← load parent;
  match memDir fd with
  | Some names =>
      store parent (mkFileData (name fd) (content fd)
                      (Some (names ∖ {[baseName child]})) (dir fd) (mode fd) (modtime fd))
  | None => mret tt
  end.

(** Modelled from the spec: [mem.ReadMemDir] lists the children of a
    directory, here by name ([f.Name()] of a listed child), and fails with
    `NotADirectory` on a file. *)
Definition ReadMemDir (f : ptr) : M (list string + error) :=
  fd ← load f;
  match memDir fd with
  | Some names => mret (inl (elements names))
  | None => mret (inr ErrNotDir)
  end.

(** [mem.GetFileInfo]: the [os.FileInfo] of an object is read through its
    address. *)
Abbreviation FileInfo := ptr (only parsing).
Definition GetFileInfo (f : ptr) : FileInfo := f.
Definition IsDir (fi : FileInfo) : M bool := fd ← load fi; mret (dir fd).
Definition Mode (fi : FileInfo) : M Z := fd ← load fi; mret (mode fd).

Definition NewFileHandle (f : ptr) : File := mkFile f false 0.
Definition NewReadOnlyFileHandle (f : ptr) : File := mkFile f true 0.
Definition Data (h : File) : ptr := fileData h.

(** Modelled from the spec: truncating through a writable handle resizes the
    shared content object and stamps it; a read-only handle refuses. *)
Definition Truncate (h : File) (size : nat) : M (option error) :=
  fd ← load (fileData h);
  if readOnly h then mret (Some (PathError "truncate" (name fd) ErrReadOnlyHandle))
  else
    now ← timeNow;
    store (fileData h)
      (mkFileData (name fd)
         (take size (content fd) ++ replicate (size - length (content fd)) Byte.x00)
         (memDir fd) (dir fd) (mode fd) now);;
    mret None.

(** Modelled from the spec: seeking to the end of the content. *)
Definition SeekEnd (h : File) : M File :=
  fd ← load (fileData h);
  mret (mkFile (fileData h) (readOnly h) (Z.of_nat (length (content fd)))).

End mem.

(** ** [MemMapFs]: the in-memory backend *)

Definition getTable : M (gmap string ptr) := λ m, Ret (data m) m.
Definition putTable (d : gmap string ptr) : M unit := λ m, Ret tt (setTable d m).

Definition onceDone : M bool := λ m, Ret (init m) m.
Definition markDone : M unit := λ m, Ret tt (mkFs (heap m) (data m) true (clock m)).

(** The body handed to [m.init.Do]. *)
Definition initOnce : M unit :=
  putTable ∅;;
  root ← mem.CreateDir FilePathSeparator;
  mem.SetMode root (Z.lor ModeDir 493);; (* os.ModeDir|0755 *)
  d ← getTable;
  putTable (<[FilePathSeparator := root]> d).

Definition getData : M (gmap string ptr) :=
  done ← onceDone;
  (if done : bool then mret tt else initOnce;; markDone);;
  getTable.

(** [m.getData()[k] = v] and [delete(m.getData(), k)]. *)
Definition setEntry (k : string) (v : ptr) : M unit :=
  d ← getData; putTable (<[k := v]> d).
Definition deleteEntry (k : string) : M unit :=
  d ← getData; putTable (delete k d).

Definition normalizePath (path : string) : string :=
  let path := filepath.Clean (FilePathSeparator +:+ path) in
  if String.eqb path "." then FilePathSeparator
  else if String.eqb path ".." then FilePathSeparator
  else path.

(** A Go pair [(v, err)] of which exactly one component is non-nil is a sum. *)
Definition lockfreeOpen (name : string) : M (ptr + error) :=
  let name := normalizePath name in
  d ← getData;
  match d !! name with
  | Some f => mret (inl f)
  | None => mret (inr ErrFileNotFound)
  end.

Definition open (name : string) : M (ptr + error) :=
  let name := normalizePath name in
  d ← getData;
  match d !! name with
  | Some f => mret (inl f)
  | None => mret (inr (PathError "open" name ErrFileNotFound))
  end.

Definition Open (name : string) : M (File + error) :=
  r ← open name;
  match r with
  | inl f => mret (inl (mem.NewReadOnlyFileHandle f))
  | inr err => mret (inr err)
  end.

Definition openWrite (name : string) : M (File + error) :=
  r ← open name;
  match r with
  | inl f => mret (inl (mem.NewFileHandle f))
  | inr err => mret (inr err)
  end.

Definition Stat (name : string) : M (mem.FileInfo + error) :=
  r ← Open name;
  match r with
  | inr err => mret (inr err)
  | inl f => mret (inl (mem.GetFileInfo (mem.Data f)))
  end.

Definition findParent (f : ptr) : M (option ptr) :=
  fd ← load f;
  let pdir := fst (filepath.Split (name fd)) in
  let pdir := filepath.Clean pdir in
  r ← lockfreeOpen pdir;
  match r with
  | inr _ => mret None
  | inl pfile => mret (Some pfile)
  end.

Definition unRegisterWithParent (fileName : string) : M (option error) :=
  r ← lockfreeOpen fileName;
  match r with
  | inr err => mret (Some err)
  | inl f =>
      parent ← findParent f;
      match parent with
      | None => fd ← load f; panic ("parent of " +:+ name fd +:+ " is nil")
      | Some parent => mem.RemoveFromMemDir parent f;; mret None
      end
  end.

Definition requireParentDirectory (operationName path : string) : M (option error) :=
  let path := normalizePath path in
  let parentPath := filepath.Dir path in
  r ← Stat parentPath;
  match r with
  | inr parentErr =>
      if IsNotExist parentErr
      then mret (Some (PathError operationName path ErrNotExist))
      else mret (Some parentErr)
  | inl parent =>
      isdir ← mem.IsDir parent;
      if negb isdir : bool then mret (Some (PathError operationName path ErrNotDir))
      else mret None
  end.

Definition registerWithParent (f : option ptr) : M unit :=
  match f with
  | None => mret tt
  | Some f =>
      parent ← findParent f;
      match parent with
      | None => fd ← load f; panic ("parent does not exist for file: " +:+ name fd)
      | Some parent => mem.InitializeDir parent;; mem.AddToMemDir parent f
      end
  end.

(** [depth] bounds the nesting of the recursive calls; the deferred [delete]
    runs when the body is done. *)
Fixpoint lockFreeRemoveAll (depth : nat) (path : string) : M unit :=
  match depth with
  | O => λ _, OutOfFuel
  | S depth' =>
      let path := normalizePath path in
      r ← lockfreeOpen path;
      match r with
      | inr err =>
          match err with
          | ErrNotExist => mret tt
          | _ => panic "impossible case: other err from lockfreeOpen"
          end
      | inl fileData =>
          err ← unRegisterWithParent path;
          match err with
          | Some _ => panic "failed to unregister with parent"
          | None =>
              dir ← mem.ReadMemDir fileData;
              match dir with
              | inl children =>
                  forEach children
                    (λ f, lockFreeRemoveAll depth' (filepath.Join path f))
              | inr _ => mret tt
              end;;
              deleteEntry path
          end
      end
  end.

(** The two recursive walks get one level per table entry and one more. *)
Definition walkDepth : M nat := d ← getData; mret (S (size d)).

Definition unrestrictedChmod (name : string) (mode' : Z) : M (option error) :=
  let name := normalizePath name in
  d ← getData;
  match d !! name with
  | None => mret (Some (PathError "chmod" name ErrFileNotFound))
  | Some f => mem.SetMode f mode';; mret None
  end.

Definition createPerm : Z := 438. (* 0666 *)

(** A Go pair [(file, err)] whose two components are set independently. *)
Definition Create (name : string) : M (option File * option error) :=
  let name := normalizePath name in
  err ← requireParentDirectory "open" name;
  match err with
  | Some err => mret (None, Some err)
  | None =>
      r ← Stat name;
      match r with
      | inr err =>
          if IsNotExist err then
            depth ← walkDepth;
            lockFreeRemoveAll depth name;;
            file ← mem.CreateFile name;
            mem.SetMode file createPerm;;
            setEntry name file;;
            registerWithParent (Some file);;
            mret (Some (mem.NewFileHandle file), None)
          else mret (None, Some err)
      | inl info =>
          isdir ← mem.IsDir info;
          if isdir : bool then mret (None, Some (PathError "open" name ErrIsDir))
          else
            d ← getData;
            match d !! name with
            | None => panic "invalid memory address or nil pointer dereference"
            | Some fileData =>
                let file := mem.NewFileHandle fileData in
                err ← mem.Truncate file 0;
                mret (Some file, err)
            end
      end
  end.

Definition Mkdir (name : string) (perm : Z) : M (option error) :=
  let perm := Z.land perm chmodBits in
  let name := normalizePath name in
  d ← getData;
  match d !! name with
  | Some _ => mret (Some (PathError "mkdir" name ErrFileExists))
  | None =>
      err ← requireParentDirectory "mkdir" name;
      match err with
      | Some err => mret (Some err)
      | None =>
          item ← mem.CreateDir name;
          setEntry name item;;
          registerWithParent (Some item);;
          unrestrictedChmod name (Z.lor perm ModeDir)
      end
  end.

(** The loop of [findMissingDirs]; [steps] bounds its turns. *)
Fixpoint findMissingDirsFrom (steps : nat) (currentPath : string)
    (missingDirs : list string) : M (list string * option error) :=
  match steps with
  | O => λ _, OutOfFuel
  | S steps' =>
      if String.eqb currentPath FilePathSeparator then mret (missingDirs, None)
      else
        r ← Stat currentPath;
        match r with
        | inr err =>
            if IsNotExist err
            then findMissingDirsFrom steps' (filepath.Dir currentPath)
                   (missingDirs ++ [currentPath])
            else mret ([], Some err)
        | inl info =>
            isdir ← mem.IsDir info;
            if isdir : bool then mret (missingDirs, None)
            else mret ([], Some (PathError "mkdirall" currentPath ErrNotDir))
        end
  end.

(** Every turn but the last shortens the path by an element, so the length
    of the path bounds the turns. *)
Definition findMissingDirs (path : string) : M (list string * option error) :=
  let path := normalizePath path in
  findMissingDirsFrom (S (String.length path)) path [].

(** The loop of [MkdirAll] over the missing directories, last one first. *)
Fixpoint mkdirEach (dirs : list string) (perm : Z) : M (option error) :=
  match dirs with
  | [] => mret None
  | d :: dirs' =>
      err ← Mkdir d perm;
      match err with
      | Some err => mret (Some err)
      | None => mkdirEach dirs' perm
      end
  end.

Definition MkdirAll (path : string) (perm : Z) : M (option error) :=
  let perm := Z.land perm chmodBits in
  r ← findMissingDirs path;
  match r with
  | (_, Some err) => mret (Some err)
  | (missingDirs, None) => mkdirEach (rev missingDirs) perm
  end.

(** What [OpenFile] does once it holds a handle and no error; [chmod] tells
    whether the file was just created. *)
Definition openFileWith (name : string) (flag perm : Z) (file : File) (chmod : bool)
    : M (option File * option error) :=
  let file := if flag =? O_RDONLY
              then mem.NewReadOnlyFileHandle (mem.Data file) else file in
  file ← (if 0 <? Z.land flag O_APPEND then mem.SeekEnd file else mret file);
  err ← (if (0 <? Z.land flag O_TRUNC)
            && (0 <? Z.land flag (Z.lor O_RDWR O_WRONLY))
         then mem.Truncate file 0 else mret None);
  match err with
  | Some err => mret (None, Some err)
  | None =>
      if chmod
      then err ← unrestrictedChmod name perm; mret (Some file, err)
      else mret (Some file, None)
  end.

Definition OpenFile (name : string) (flag : Z) (perm : Z)
    : M (option File * option error) :=
  let perm := Z.land perm chmodBits in
  r ← openWrite name;
  match r with
  | inl file =>
      if 0 <? Z.land flag O_EXCL
      then mret (None, Some (PathError "open" name ErrFileExists))
      else openFileWith name flag perm file false
  | inr err =>
      if IsNotExist err && (0 <? Z.land flag O_CREATE)
      then
        r ← Create name;
        match r with
        | (_, Some err) => mret (None, Some err)
        | (None, None) => panic "invalid memory address or nil pointer dereference"
        | (Some file, None) => openFileWith name flag perm file true
        end
      else mret (None, Some err)
  end.

Definition Remove (name : string) : M (option error) :=
  let name := normalizePath name in
  d ← getData;
  match d !! name with
  | Some f =>
      isdir ← mem.IsDir (mem.GetFileInfo f);
      blocked ←
        (if isdir : bool then
           dir ← mem.ReadMemDir f;
           match dir with
           | inr _ => panic "Directory failed to list entries"
           | inl children => mret (negb (length children =? 0)%nat)
           end
         else mret false);
      if blocked : bool then mret (Some (PathError "remove" name ErrNotEmpty))
      else
        err ← unRegisterWithParent name;
        match err with
        | Some err => mret (Some (PathError "remove" name err))
        | None => deleteEntry name;; mret None
        end
  | None => mret (Some (PathError "remove" name ErrNotExist))
  end.

Definition RemoveAll (path : string) : M (option error) :=
  depth ← walkDepth;
  lockFreeRemoveAll depth path;;
  mret None.

Fixpoint lockFreeRename (depth : nat) (oldname newname : string) : M unit :=
  match depth with
  | O => λ _, OutOfFuel
  | S depth' =>
      (* 1. add file data to new map location *)
      d ← getData;
      match d !! oldname with
      | None => panic ("File not found: " +:+ oldname)
      | Some fileData =>
          setEntry newname fileData;;
          (* 2. record children entries before rename *)
          r ← mem.ReadMemDir fileData;
          dir ← match r with
                | inl children => mret children
                | inr err => if negb (IsNotDir err) then panic "ReadMemDir" else mret []
                end;
          (* 3. remove old parent directory's child entry *)
          err ← unRegisterWithParent oldname;
          match err with
          | Some _ => panic "unRegisterWithParent"
          | None =>
              (* 4. rename file itself to the new name *)
              mem.ChangeFileName fileData newname;;
              (* 5. add new parent directory's child entry *)
              registerWithParent (Some fileData);;
              (* 6. recurse into children, renaming each one *)
              forEach dir
                (λ f, lockFreeRename depth' (filepath.Join oldname f)
                                            (filepath.Join newname f));;
              (* 7. delete old file data from map *)
              deleteEntry oldname
          end
      end
  end.

Definition Rename (oldname newname : string) : M (option error) :=
  let oldname := normalizePath oldname in
  let newname := normalizePath newname in
  if String.eqb oldname newname then mret None
  else if strings.HasPrefix newname (oldname +:+ FilePathSeparator)
  then mret (Some (PathError "rename" newname ErrInvalid))
  else
    d ← getData;
    match d !! oldname with
    | None => mret (Some (PathError "rename" oldname ErrFileNotFound))
    | Some _ =>
        let newParentDir := filepath.Dir newname in
        d ← getData;
        match d !! newParentDir with
        | None => mret (Some (PathError "rename" newParentDir ErrFileNotFound))
        | Some _ =>
            depth ← walkDepth;
            lockFreeRemoveAll depth newname;;
            lockFreeRename depth oldname newname;;
            mret None
        end
    end.

Definition Chmod (name : string) (mode' : Z) : M (option error) :=
  let name := normalizePath name in
  let mode' := Z.land mode' chmodBits in
  d ← getData;
  match d !! name with
  | None => mret (Some (PathError "chmod" name ErrFileNotFound))
  | Some f =>
      prev ← mem.Mode (mem.GetFileInfo f);
      (* ^chmodBits on a 32-bit os.FileMode *)
      let prevOtherBits := Z.land prev (Z.lxor chmodBits (Z.ones 32)) in
      let mode' := Z.lor prevOtherBits mode' in
      unrestrictedChmod name mode'
  end.

Definition Chtimes (name : string) (atime mtime : Z) : M (option error) :=
  let name := normalizePath name in
  d ← getData;
  match d !! name with
  | None => mret (Some (PathError "chtimes" name ErrFileNotFound))
  | Some f => mem.SetModTime f mtime;; mret None
  end.

(** [NewMemMapFs]: nothing allocated, the table not yet made. *)
Definition NewMemMapFs (now : Z) : MemMapFs := mkFs [] ∅ false now.

(** ** Package [zipfs]: the archive-backed backend

    Methods take the receiver and return it with their results, so that a
    method that changed the table would show it.  The warnings written to the
    JavaScript console are left out. *)
Module zipfs.

(** A [*zip.File] as far as this package looks at it: its header name, and
    whether its attributes mark a directory. *)
Record ZipFile : Type := mkZipFile {
  zName : string;
  zAttrDir : bool
}.

Fixpoint endsWithSlash (s : string) : bool :=
  match s with
  | EmptyString => false
  | String c EmptyString => filepath.IsPathSeparator c
  | String _ rest => endsWithSlash rest
  end.

(** [file.FileInfo().IsDir()] of archive/zip: the attributes say so, or the
    name ends in a slash. *)
Definition zIsDir (f : ZipFile) : bool := zAttrDir f || endsWithSlash (zName f).

Record Fs : Type := mkZipFs {
  r : list ZipFile;
  files : gmap string (gmap string ZipFile)
}.

(** A handle of this backend ([*zipfs.File]). *)
Record File : Type := mkZFile {
  zipfile : option ZipFile;
  isdir : bool
}.

Definition normalizePath (path : string) : string :=
  let path := match path with
              | String c _ => if filepath.IsPathSeparator c then path else "/" +:+ path
              | EmptyString => "/" +:+ path
              end in
  filepath.Clean path.

Definition splitpath (name : string) : string * string :=
  let name := normalizePath name in
  let '(dir, file) := filepath.Split name in
  (filepath.Clean dir, file).

(** The first loop of [mkdirAll]: the path and its ancestors below the root. *)
Fixpoint ancestors (steps : nat) (dir : string) : list string :=
  match steps with
  | O => []
  | S steps' =>
      if String.eqb dir "/" then []
      else dir :: ancestors steps' (fst (splitpath dir))
  end.

(** One turn of the second loop; [parent] is the key of [parentFiles]. *)
Definition ensureDir (st : gmap string (gmap string ZipFile) * string) (dir : string)
    : gmap string (gmap string ZipFile) * string :=
  let '(fls, parent) := st in
  let base := snd (splitpath dir) in
  let parentFiles := default ∅ (fls !! parent) in
  let fls :=
    match parentFiles !! base with
    | Some _ => fls
    | None => <[parent := <[base := mkZipFile (dir +:+ "/") false]> parentFiles]> fls
    end in
  let fls := match fls !! dir with Some _ => fls | None => <[dir := ∅]> fls end in
  (fls, dir).

Definition mkdirAll (path : string) (fs : Fs) : Fs :=
  let slash := "/" in
  let dirs := ancestors (S (String.length (normalizePath path))) (normalizePath path) in
  let fls := match files fs !! slash with
             | Some _ => files fs
             | None => <[slash := ∅]> (files fs)
             end in
  mkZipFs (r fs) (fst (fold_left ensureDir (rev dirs) (fls, slash))).

Definition addFile (fs : Fs) (file : ZipFile) : Fs :=
  if zIsDir file then mkdirAll (zName file) fs
  else
    let '(d, f) := splitpath (zName file) in
    let fs := mkdirAll d fs in
    mkZipFs (r fs) (<[d := <[f := file]> (default ∅ (files fs !! d))]> (files fs)).

Definition New (r : list ZipFile) : Fs :=
  fold_left addFile r (mkZipFs r ∅).

Definition Create (name : string) (fs : Fs) : (option File * option error) * Fs :=
  ((None, Some EPERM), fs).

Definition Mkdir (name : string) (perm : Z) (fs : Fs) : option error * Fs :=
  (Some EPERM, fs).

Definition MkdirAll (path : string) (perm : Z) (fs : Fs) : option error * Fs :=
  (Some EPERM, fs).

Definition Open (name : string) (fs : Fs) : (option File * option error) * Fs :=
  let '(d, f) := splitpath name in
  if String.eqb f "" then ((Some (mkZFile None true), None), fs)
  else
    match files fs !! d with
    | None => ((None, Some (PathError "stat" name ENOENT)), fs)
    | Some entries =>
        match entries !! f with
        | None => ((None, Some (PathError "stat" name ENOENT)), fs)
        | Some file => ((Some (mkZFile (Some file) (zIsDir file)), None), fs)
        end
    end.

Definition OpenFile (name : string) (flag : Z) (perm : Z) (fs : Fs)
    : (option File * option error) * Fs :=
  if negb (flag =? O_RDONLY) then ((None, Some EPERM), fs)
  else Open name fs.

Definition Remove (name : string) (fs : Fs) : option error * Fs := (Some EPERM, fs).

Definition RemoveAll (path : string) (fs : Fs) : option error * Fs := (Some EPERM, fs).

Definition Rename (oldname newname : string) (fs : Fs) : option error * Fs :=
  (Some EPERM, fs).

Definition Chmod (name : string) (mode' : Z) (fs : Fs) : option error * Fs :=
  (Some EPERM, fs).

Definition Chtimes (name : string) (atime mtime : Z) (fs : Fs) : option error * Fs :=
  (Some EPERM, fs).

(** The mutating calls of the filesystem contract, as this backend gets them. *)
Inductive call : Type :=
| CallCreate (name : string)
| CallMkdir (name : string) (perm : Z)
| CallMkdirAll (path : string) (perm : Z)
| CallOpenFile (name : string) (flag perm : Z)
| CallRemove (name : string)
| CallRemoveAll (path : string)
| CallRename (oldname newname : string)
| CallChmod (name : string) (mode' : Z)
| CallChtimes (name : string) (atime mtime : Z).

(** The error a call returns and the backend it leaves. *)
Definition perform (c : call) (fs : Fs) : option error * Fs :=
  match c with
  | CallCreate name => let '((_, err), fs') := Create name fs in (err, fs')
  | CallMkdir name perm => Mkdir name perm fs
  | CallMkdirAll path perm => MkdirAll path perm fs
  | CallOpenFile name flag perm =>
      let '((_, err), fs') := OpenFile name flag perm fs in (err, fs')
  | CallRemove name => Remove name fs
  | CallRemoveAll path => RemoveAll path fs
  | CallRename oldname newname => Rename oldname newname fs
  | CallChmod name mode' => Chmod name mode' fs
  | CallChtimes name atime mtime => Chtimes name atime mtime fs
  end.

(** A call mutates unless it is an [OpenFile] with the read-only flag. *)
Definition mutating (c : call) : bool :=
  match c with
  | CallOpenFile _ flag _ => negb (flag =? O_RDONLY)
  | _ => true
  end.

(** An archive with one file, [go/README]. *)
Definition sample : Fs := New [mkZipFile "go/README" false].

(** What [Stat] returns: the [pseudoRoot], or the [FileInfo] of an archive
    entry. *)
Inductive FileInfo : Type :=
| pseudoRoot
| zipInfo (file : ZipFile).

Definition IsDir (fi : FileInfo) : bool :=
  match fi with
  | pseudoRoot => true
  | zipInfo file => zIsDir file
  end.

Definition Stat (name : string) (fs : Fs) : (option FileInfo * option error) * Fs :=
  let '(d, f) := splitpath name in
  if String.eqb f "" then ((Some pseudoRoot, None), fs)
  else
    match files fs !! d with
    | None => ((None, Some (PathError "stat" name ENOENT)), fs)
    | Some entries =>
        match entries !! f with
        | None => ((None, Some (PathError "stat" name ENOENT)), fs)
        | Some file => ((Some (zipInfo file), None), fs)
        end
    end.

(** The table [fls'] has every entry of the table [fls]. *)
Definition extends (fls fls' : gmap string (gmap string ZipFile)) : Prop :=
  ∀ d es, fls !! d = Some es → ∃ es', fls' !! d = Some es' ∧ es ⊆ es'.

(** The listing of directory [d] has an entry named [f]. *)
Definition listed (fls : gmap string (gmap string ZipFile)) (d f : string) : Prop :=
  ∃ es z, fls !! d = Some es ∧ es !! f = Some z.

End zipfs.

(** ** Vocabulary of the properties *)

(** A path element proper: not empty, not [.], not [..], without separator. *)
Fixpoint hasSep (s : string) : bool :=
  match s with
  | EmptyString => false
  | String c rest => filepath.IsPathSeparator c || hasSep rest
  end.

Definition properElem (e : string) : Prop :=
  e ≠ "" ∧ e ≠ "." ∧ e ≠ ".." ∧ hasSep e = false.

(** The canonical path with the given elements below the root. *)
Definition canon (es : list string) : string := "/" +:+ String.concat "/" es.

(** The filesystem right after its first use: the root alone. *)
Definition rootDir (now : Z) : FileData :=
  mkFileData "/" [] (Some ∅) true (Z.lor ModeDir 493) now.
Definition rootOnly (now : Z) : MemMapFs :=
  mkFs [rootDir now] {["/" := 0%nat]} true now.

(** An object with one field replaced. *)
Definition withMode (mode' : Z) (fd : FileData) : FileData :=
  mkFileData (name fd) (content fd) (memDir fd) (dir fd) mode' (modtime fd).
Definition withModTime (mtime : Z) (fd : FileData) : FileData :=
  mkFileData (name fd) (content fd) (memDir fd) (dir fd) (mode fd) mtime.

(** The mode [Chmod] stores, from the mode the entry had and the one asked. *)
Definition chmodResult (prev mode' : Z) : Z :=
  Z.lor (Z.land prev (Z.lxor chmodBits (Z.ones 32))) (Z.land mode' chmodBits).

(** In the spec's words, the bits of a mode that [chmod] may replace: the
    nine permission bits (0 to 8), sticky (20), setgid (22) and setuid (23),
    as [os.FileMode] numbers them. *)
Definition replaceableBit (i : Z) : bool :=
  (0 <=? i) && (i <=? 8) || (i =? 20) || (i =? 22) || (i =? 23).
Definition withContent (bytes : list Byte.byte) (mtime : Z) (fd : FileData) : FileData :=
  mkFileData (name fd) bytes (memDir fd) (dir fd) (mode fd) mtime.
Definition withChild (child : string) (fd : FileData) : FileData :=
  mkFileData (name fd) (content fd) (Some ({[child]} ∪ default ∅ (memDir fd)))
    true (mode fd) (modtime fd).

(** The calls on a [MemMapFs] that the properties range over. *)
Inductive call : Type :=
| CallCreate (name : string)
| CallMkdir (name : string) (perm : Z)
| CallMkdirAll (path : string) (perm : Z)
| CallOpenFile (name : string) (flag perm : Z)
| CallRemove (name : string)
| CallRemoveAll (path : string)
| CallRename (oldname newname : string)
| CallChmod (name : string) (mode' : Z)
| CallChtimes (name : string) (atime mtime : Z).

(** The error a call returns. *)
Definition perform (c : call) : M (option error) :=
  match c with
  | CallCreate name => r ← Create name; mret (snd r)
  | CallMkdir name perm => Mkdir name perm
  | CallMkdirAll path perm => MkdirAll path perm
  | CallOpenFile name flag perm => r ← OpenFile name flag perm; mret (snd r)
  | CallRemove name => Remove name
  | CallRemoveAll path => RemoveAll path
  | CallRename oldname newname => Rename oldname newname
  | CallChmod name mode' => Chmod name mode'
  | CallChtimes name atime mtime => Chtimes name atime mtime
  end.

(** Time passing: [time.Now()] returns [now] from here on. *)
Definition setClock (now : Z) (m : MemMapFs) : MemMapFs :=
  mkFs (heap m) (data m) (init m) now.

(** Modelled from the spec: a write through a writable handle of package mem,
    which replaces the content of the file object it is open on. *)
Definition writeThrough (h : File) (bytes : list Byte.byte) : M (option error) :=
  fd ← load (fileData h);
  if readOnly h then mret (Some (PathError "write" (name fd) ErrReadOnlyHandle))
  else
    now ← timeNow;
    store (fileData h) (withContent bytes now fd);;
    mret None.

(** The states a program can bring a new [MemMapFs] to: by calls that
    return, by writes through handles on file objects, and by letting time
    pass. *)
Inductive reachable : MemMapFs → Prop :=
| reachable_new (now : Z) : reachable (NewMemMapFs now)
| reachable_call (m m' : MemMapFs) (c : call) (err : option error) :
    reachable m → perform c m = Ret err m' → reachable m'
| reachable_write (m m' : MemMapFs) (h : File) (fd : FileData)
    (bytes : list Byte.byte) (err : option error) :
    reachable m → heap m !! fileData h = Some fd → dir fd = false →
    writeThrough h bytes m = Ret err m' → reachable m'
| reachable_tick (m : MemMapFs) (now : Z) :
    reachable m → reachable (setClock now m).

(** The names of the table entries, other than the root, whose parent path
    is [parent]. *)
Definition childNames (d : gmap string ptr) (parent : string) : gset string :=
  set_map (λ k, snd (filepath.Split k))
    (filter (λ k, k ≠ FilePathSeparator ∧ filepath.Dir k = parent) (dom d)).

(** Symmetry of the table: what a directory records as its children is what
    the table holds under it. *)
Definition symmetric (m : MemMapFs) : Prop :=
  ∀ (path : string) (p : ptr) (fd : FileData) (names : gset string),
    data m !! path = Some p → heap m !! p = Some fd → memDir fd = Some names →
    names = childNames (data m) path.

(** The root is in the table and is a directory. *)
Definition rootIsDir (m : MemMapFs) : Prop :=
  ∃ (p : ptr) (fd : FileData),
    data m !! FilePathSeparator = Some p ∧ heap m !! p = Some fd ∧ dir fd = true.

(** The state [Create] leaves when it makes a new file [name] under the
    directory object [pfd] at address [pp]. *)
Definition createdFile (name : string) (now : Z) : FileData :=
  mkFileData name [] None false createPerm now.
Definition afterCreate (m : MemMapFs) (name : string) (pp : ptr) (pfd : FileData)
    : MemMapFs :=
  mkFs (<[pp := withChild (snd (filepath.Split name)) pfd]>
          (heap m ++ [createdFile name (clock m)])%list)
       (<[name := length (heap m)]> (data m)) (init m) (clock m).

(** A state with a directory [/d] that holds a file [/d/f]. *)
Definition withDir : MemMapFs :=
  mkFs [mkFileData "/" [] (Some {["d"]}) true (Z.lor ModeDir 493) 0;
        mkFileData "/d" [] (Some {["f"]}) true (Z.lor ModeDir 493) 0;
        mkFileData "/d/f" [] None false createPerm 0]
       (<["/d/f" := 2%nat]> (<["/d" := 1%nat]> {["/" := 0%nat]})) true 0.


(** The state after the first [getData]: the root is made if the
    [sync.Once] has not fired yet. *)
Definition afterInit (m : MemMapFs) : MemMapFs :=
  if init m then m
  else mkFs (heap m ++ [rootDir (clock m)])%list
            {[FilePathSeparator := length (heap m)]} true (clock m).

(** Every entry of the table points to an object. *)
Definition allocated (m : MemMapFs) : Prop :=
  ∀ (k : string) (p : ptr), data m !! k = Some p → is_Some (heap m !! p).

(** Every directory object of [h] is still a directory object in [h']. *)
Definition keepsDirs (h h' : list FileData) : Prop :=
  ∀ (q : ptr) (fd : FileData),
    h !! q = Some fd → dir fd = true → ∃ fd', h' !! q = Some fd' ∧ dir fd' = true.

(** A directory is at [path]. *)
Definition dirAt (m : MemMapFs) (path : string) : Prop :=
  ∃ (f : ptr) (fd : FileData),
    data m !! path = Some f ∧ heap m !! f = Some fd ∧ dir fd = true.

(** The state after [MkdirAll "/a/b"] on a new filesystem. *)
Definition madeAB : MemMapFs :=
  mkFs [mkFileData "/" [] (Some {["a"]}) true (Z.lor ModeDir 493) 0;
        mkFileData "/a" [] (Some {["b"]}) true (Z.lor ModeDir 493) 0;
        mkFileData "/a/b" [] (Some ∅) true (Z.lor ModeDir 493) 0]
       (<["/a/b" := 2%nat]> (<["/a" := 1%nat]> {["/" := 0%nat]})) true 0.

(** The state after [Rename "/" "/x"] on a new filesystem. *)
Definition renamedRoot : MemMapFs :=
  mkFs [mkFileData "/x" [] (Some {["x"]}) true (Z.lor ModeDir 493) 0]
       {["/x" := 0%nat]} true 0.

(** The state after [RemoveAll "/"] on a new filesystem. *)
Definition emptied : MemMapFs := mkFs [rootDir 0] ∅ true 0.

(** ** Vocabulary of the further properties *)

(** A computation keeps [P]: from a state with [P], a run that returns ends
    in a state with [P]. *)
Definition keeps (P : MemMapFs → Prop) {A : Type} (c : M A) : Prop :=
  ∀ (m : MemMapFs) (a : A) (m' : MemMapFs), P m → c m = Ret a m' → P m'.

(** Every key of the table is a canonical path. *)
Definition canonical (k : string) : Prop :=
  ∃ es, Forall properElem es ∧ k = canon es.
Definition keysCanonical (m : MemMapFs) : Prop :=
  ∀ (k : string) (p : ptr), data m !! k = Some p → canonical k.

(** A property of the table alone: it holds of any state with the same
    table. *)
Definition tableOnly (P : MemMapFs → Prop) : Prop :=
  ∀ m m', data m' = data m → P m → P m'.

(** The state [Mkdir] leaves when it makes the directory [name], with mode
    [mode'], under the directory object [pfd] at address [pp]. *)
Definition madeDir (name : string) (mode' now : Z) : FileData :=
  mkFileData name [] (Some ∅) true mode' now.
Definition afterMkdir (m : MemMapFs) (name : string) (mode' : Z) (pp : ptr)
    (pfd : FileData) : MemMapFs :=
  mkFs (<[pp := withChild (snd (filepath.Split name)) pfd]>
          (heap m ++ [madeDir name mode' (clock m)])%list)
       (<[name := length (heap m)]> (data m)) (init m) (clock m).

(** [l] lists [start], its parent, the parent of that, and so on. *)
Fixpoint ancestorChain (start : string) (l : list string) : Prop :=
  match l with
  | [] => True
  | k :: l' => k = start ∧ ancestorChain (filepath.Dir start) l'
  end.

(** An object with a name taken out of its child set, if it has one. *)
Definition withoutChild (child : string) (fd : FileData) : FileData :=
  mkFileData (name fd) (content fd) ((λ names, names ∖ {[child]}) <$> memDir fd)
    (dir fd) (mode fd) (modtime fd).

(** The state [Remove] leaves when it takes the entry [name] out of the table
    and out of the child set of the object [pfd] at address [pp]. *)
Definition afterRemove (m : MemMapFs) (name : string) (pp : ptr) (pfd : FileData)
    : MemMapFs :=
  mkFs (<[pp := withoutChild (snd (filepath.Split name)) pfd]> (heap m))
       (delete name (data m)) (init m) (clock m).

(** A leaf: a file without child set or a directory whose child set is empty. *)
Definition leaf (fd : FileData) : Prop :=
  memDir fd = if dir fd then Some ∅ else None.

(** An object under a new name. *)
Definition renamed (newname : string) (fd : FileData) : FileData :=
  mkFileData newname (content fd) (memDir fd) (dir fd) (mode fd) (modtime fd).

(** The state [Rename] leaves when it moves the file object [fd] at address
    [f] from the key [o], under the object [opd] at [op], to the key [n],
    under the object at [np] (which is [npd], or what became of [opd] when
    both parents are one object). *)
Definition afterRenameFile (m : MemMapFs) (o n : string) (f : ptr) (fd : FileData)
    (op : ptr) (opd : FileData) (np : ptr) (npd : FileData) : MemMapFs :=
  let h1 := <[op := withoutChild (snd (filepath.Split o)) opd]> (heap m) in
  let h2 := <[f := renamed n fd]> h1 in
  mkFs (<[np := withChild (snd (filepath.Split n)) (default npd (h2 !! np))]> h2)
       (delete o (<[n := f]> (data m))) (init m) (clock m).

(** * Go's path functions on examples *)

Example Clean_ex1 : filepath.Clean "/../a/./b//c/.." = "/a/b". Proof. reflexivity. Qed.
Example Clean_ex2 : filepath.Clean "a/../../b/" = "../b". Proof. reflexivity. Qed.
Example Clean_ex3 : filepath.Clean "//" = "/". Proof. reflexivity. Qed.
Example Clean_ex4 : filepath.Clean "a/.." = ".". Proof. reflexivity. Qed.
Example Split_ex1 : filepath.Split "/x/a" = ("/x/", "a"). Proof. reflexivity. Qed.
Example Split_ex2 : filepath.Split "/" = ("/", ""). Proof. reflexivity. Qed.
Example Split_ex3 : filepath.Split "abc" = ("", "abc"). Proof. reflexivity. Qed.
Example Dir_ex1 : filepath.Dir "/x" = "/". Proof. reflexivity. Qed.
Example Dir_ex2 : filepath.Dir "/x/y" = "/x". Proof. reflexivity. Qed.
Example Join_ex1 : filepath.Join "/" "a" = "/a". Proof. reflexivity. Qed.

(** * Canonical paths *)

Section CanonicalPaths.

Import filepath.

Lemma elems_sep (s : string) : elems (String "/" s) = "" :: elems s.
Proof. reflexivity. Qed.

Lemma elems_not_nil (s : string) : elems s ≠ [].
Proof.
  destruct s as [|c s]; simpl; [discriminate|].
  destruct (IsPathSeparator c); [discriminate|].
  destruct (elems s); discriminate.
Qed.

Lemma elems_plain (e : string) : hasSep e = false → elems e = [e].
Proof.
  induction e as [|c e IH]; simpl; [reflexivity|].
  destruct (IsPathSeparator c); [discriminate|].
  intros H. rewrite (IH H). reflexivity.
Qed.

Lemma elems_app (e t : string) :
  hasSep e = false → elems (e +:+ "/" +:+ t) = e :: elems t.
Proof.
  induction e as [|c e IH]; simpl; [reflexivity|].
  destruct (IsPathSeparator c); [discriminate|].
  intros H. rewrite (IH H). reflexivity.
Qed.

Lemma elems_hasSep (s : string) : Forall (λ e, hasSep e = false) (elems s).
Proof.
  induction s as [|c s IH]; simpl.
  - repeat constructor.
  - destruct (IsPathSeparator c) eqn:Hc.
    + constructor; [reflexivity|exact IH].
    + destruct (elems s) as [|e es]; [repeat constructor; simpl; by rewrite Hc|].
      inversion IH; subst. constructor; [simpl; by rewrite Hc|done].
Qed.


Lemma elems_concat (es : list string) :
  es ≠ [] → Forall (λ e, hasSep e = false) es →
  elems (String.concat "/" es) = es.
Proof.
  induction es as [|e es IH]; [done|]. intros _ H.
  inversion H as [|? ? He Hes]; subst.
  destruct es as [|e' es'].
  - simpl. by apply elems_plain.
  - change (String.concat "/" (e :: e' :: es'))
      with (e +:+ "/" +:+ String.concat "/" (e' :: es')).
    rewrite elems_app by done. f_equal. by apply IH.
Qed.

Lemma append_assoc (a b c : string) : (a +:+ b) +:+ c = a +:+ b +:+ c.
Proof.
  induction a as [|x a IH]; [reflexivity|].
  change (String x ((a +:+ b) +:+ c) = String x (a +:+ b +:+ c)). by rewrite IH.
Qed.

Lemma elems_concat_sep (es : list string) (t : string) :
  es ≠ [] → Forall (λ e, hasSep e = false) es →
  elems (String.concat "/" es +:+ "/" +:+ t) = (es ++ elems t)%list.
Proof.
  induction es as [|e es IH]; [done|]. intros _ H.
  inversion H as [|? ? He Hes]; subst.
  destruct es as [|e' es'].
  - simpl String.concat. by rewrite elems_app.
  - change (String.concat "/" (e :: e' :: es'))
      with (e +:+ "/" +:+ String.concat "/" (e' :: es')).
    rewrite append_assoc. change (("/" +:+ ?x) +:+ ?y) with ("/" +:+ x +:+ y).
    rewrite elems_app by done. simpl app. f_equal. by apply IH.
Qed.

Lemma cleanStep_skip (out : list string) : cleanStep true out "" = out.
Proof. reflexivity. Qed.

Lemma cleanStep_proper (out : list string) (e : string) :
  properElem e → cleanStep true out e = e :: out.
Proof.
  intros (H1 & H2 & H3 & _). unfold cleanStep.
  apply String.eqb_neq in H1, H2, H3. by rewrite H1, H2, H3.
Qed.

Lemma cleanStep_keeps (out : list string) (e : string) :
  hasSep e = false → Forall properElem out →
  Forall properElem (cleanStep true out e).
Proof.
  intros He Hout. unfold cleanStep.
  destruct (String.eqb_spec e "") as [->|H1]; [done|].
  destruct (String.eqb_spec e ".") as [->|H2]; [done|].
  destruct (String.eqb_spec e "..") as [->|H3]; simpl.
  - destruct out as [|top out']; [done|]. by inversion Hout.
  - constructor; [by repeat split|done].
Qed.

Lemma fold_cleanStep_keeps (es out : list string) :
  Forall (λ e, hasSep e = false) es → Forall properElem out →
  Forall properElem (fold_left (cleanStep true) es out).
Proof.
  revert out. induction es as [|e es IH]; intros out Hes Hout; simpl; [done|].
  inversion Hes; subst. apply IH; [done|]. by apply cleanStep_keeps.
Qed.

Lemma fold_cleanStep_proper (es out : list string) :
  Forall properElem es →
  fold_left (cleanStep true) es out = (rev es ++ out)%list.
Proof.
  revert out. induction es as [|e es IH]; intros out Hes; simpl; [done|].
  inversion Hes; subst. rewrite cleanStep_proper by done.
  rewrite IH by done. by rewrite <- app_assoc.
Qed.

Lemma properElem_hasSep (es : list string) :
  Forall properElem es → Forall (λ e, hasSep e = false) es.
Proof. intros H. eapply Forall_impl; [exact H|]. by intros e (_ & _ & _ & He). Qed.

(** A rooted path cleans to the canonical path of the elements it keeps. *)
Lemma Clean_rooted (p : string) :
  Clean (String "/" p) = canon (cleanElems true (elems (String "/" p))).
Proof. reflexivity. Qed.

Lemma canon_not_dot (es : list string) : canon es ≠ "." ∧ canon es ≠ "..".
Proof. split; discriminate. Qed.

Lemma normalizePath_unfold (p : string) :
  normalizePath p = canon (cleanElems true (elems (String "/" p))).
Proof. reflexivity. Qed.

(** [normalizePath] always yields a canonical path. *)
Lemma normalizePath_canon (p : string) :
  ∃ es, Forall properElem es ∧ normalizePath p = canon es.
Proof.
  exists (cleanElems true (elems (String "/" p))). split; [|apply normalizePath_unfold].
  unfold cleanElems. apply Forall_rev, fold_cleanStep_keeps; [apply elems_hasSep|done].
Qed.

Lemma cleanElems_canon (es : list string) :
  Forall properElem es → cleanElems true (elems (canon es)) = es.
Proof.
  intros Hes. unfold canon. change ("/" +:+ ?x) with (String "/" x).
  rewrite elems_sep. unfold cleanElems. simpl fold_left.
  destruct es as [|e es']; [reflexivity|].
  rewrite elems_concat by (done || by apply properElem_hasSep).
  rewrite fold_cleanStep_proper by done. by rewrite app_nil_r, rev_involutive.
Qed.

Lemma Clean_canon (es : list string) :
  Forall properElem es → Clean (canon es) = canon es.
Proof. intros Hes. unfold canon at 1. change ("/" +:+ ?x) with (String "/" x).
  rewrite Clean_rooted. f_equal. by apply cleanElems_canon. Qed.

(** A canonical path is a fixed point of [normalizePath]. *)
Lemma normalizePath_of_canon (es : list string) :
  Forall properElem es → normalizePath (canon es) = canon es.
Proof.
  intros Hes. rewrite normalizePath_unfold. f_equal.
  rewrite elems_sep. unfold cleanElems. simpl fold_left.
  fold (cleanElems true (elems (canon es))). by apply cleanElems_canon.
Qed.

Lemma normalizePath_idem (p : string) :
  normalizePath (normalizePath p) = normalizePath p.
Proof.
  destruct (normalizePath_canon p) as (es & Hes & ->). by apply normalizePath_of_canon.
Qed.

Lemma Split_cons (c : ascii) (rest : string) :
  Split (String c rest) =
    (let '(d, f) := Split rest in
     if String.eqb d "" then
       if IsPathSeparator c then (String c "", rest) else ("", String c rest)
     else (String c d, f)).
Proof. reflexivity. Qed.

Lemma Split_plain (e : string) : hasSep e = false → Split e = ("", e).
Proof.
  induction e as [|c e IH]; [reflexivity|]. intros H. simpl in H.
  rewrite Split_cons. destruct (IsPathSeparator c); [discriminate|].
  by rewrite (IH H).
Qed.

Lemma Split_app (s e : string) :
  hasSep e = false → Split (s +:+ "/" +:+ e) = (s +:+ "/", e).
Proof.
  intros He. induction s as [|c s IH].
  - change (Split (String "/" e) = ("/", e)).
    rewrite Split_cons. by rewrite (Split_plain e He).
  - change (Split (String c (s +:+ "/" +:+ e)) = (String c (s +:+ "/"), e)).
    rewrite Split_cons, IH. by destruct s.
Qed.

Lemma concat_snoc (es : list string) (e : string) :
  es ≠ [] → String.concat "/" (es ++ [e])%list = String.concat "/" es +:+ "/" +:+ e.
Proof.
  induction es as [|x es IH]; [done|]. intros _.
  destruct es as [|y es']; [reflexivity|].
  change (String.concat "/" ((x :: y :: es') ++ [e])%list)
    with (x +:+ "/" +:+ String.concat "/" ((y :: es') ++ [e])%list).
  rewrite IH by done.
  change (String.concat "/" (x :: y :: es'))
    with (x +:+ "/" +:+ String.concat "/" (y :: es')).
  rewrite !append_assoc. reflexivity.
Qed.

Lemma Split_canon_snoc (es : list string) (e : string) :
  hasSep e = false →
  Split (canon (es ++ [e])%list) =
    (match es with [] => "/" | _ => canon es +:+ "/" end, e).
Proof.
  intros He. destruct es as [|x es'].
  - change (canon ([] ++ [e])%list) with ("" +:+ "/" +:+ e).
    by rewrite Split_app.
  - unfold canon. rewrite concat_snoc by done.
    rewrite <- (append_assoc "/" (String.concat "/" (x :: es')) ("/" +:+ e)).
    by rewrite Split_app.
Qed.

(** The parent of a canonical path is the canonical path of all its elements
    but the last; the root is its own parent. *)
Lemma Dir_canon_nil : Dir (canon []) = canon [].
Proof. reflexivity. Qed.

Lemma Dir_canon_snoc (es : list string) (e : string) :
  Forall properElem es → properElem e → Dir (canon (es ++ [e])%list) = canon es.
Proof.
  intros Hes He. unfold Dir. rewrite Split_canon_snoc by apply He. simpl fst.
  destruct es as [|x es']; [reflexivity|].
  unfold canon at 1.
  change (("/" +:+ ?a) +:+ "/") with (String "/" (a +:+ "/" +:+ "")).
  rewrite Clean_rooted. f_equal. rewrite elems_sep.
  rewrite elems_concat_sep by (done || by apply properElem_hasSep).
  unfold cleanElems.
  change (fold_left ?f ("" :: ?l) []) with (fold_left f l []).
  rewrite fold_left_app, (fold_cleanStep_proper _ _ Hes).
  change (fold_left ?f (elems "") ?a) with a.
  by rewrite app_nil_r, rev_involutive.
Qed.

Lemma Dir_canon (es : list string) :
  Forall properElem es → ∃ es', Forall properElem es' ∧ Dir (canon es) = canon es'.
Proof.
  intros Hes. destruct es as [|x es'] using rev_ind.
  - exists []. by split.
  - apply Forall_app in Hes as [Hes' Hx]. inversion Hx; subst.
    exists es'. split; [done|]. by apply Dir_canon_snoc.
Qed.

Lemma normalizePath_Dir (p : string) :
  normalizePath (filepath.Dir (normalizePath p)) = filepath.Dir (normalizePath p).
Proof.
  destruct (normalizePath_canon p) as (es & Hes & ->).
  destruct (Dir_canon es Hes) as (es' & Hes' & ->). by apply normalizePath_of_canon.
Qed.

End CanonicalPaths.

(** * Running the methods *)

Lemma bind_unfold {A B : Type} (c : M A) (f : A → M B) (m : MemMapFs) :
  (c ≫= f) m =
    match c m with
    | Ret a m' => f a m'
    | Panic msg => Panic msg
    | OutOfFuel => OutOfFuel
    end.
Proof. reflexivity. Qed.

Lemma bind_Ret {A B : Type} (c : M A) (f : A → M B) (m m' : MemMapFs) (a : A) :
  c m = Ret a m' → (c ≫= f) m = f a m'.
Proof. intros H. by rewrite bind_unfold, H. Qed.

Lemma ret_unfold {A : Type} (a : A) (m : MemMapFs) : (mret a : M A) m = Ret a m.
Proof. reflexivity. Qed.

Lemma getData_ready (m : MemMapFs) : init m = true → getData m = Ret (data m) m.
Proof. intros H. unfold getData. rewrite bind_unfold. unfold onceDone. rewrite H. reflexivity. Qed.

Lemma load_Some (m : MemMapFs) (p : ptr) (fd : FileData) :
  heap m !! p = Some fd → load p m = Ret fd m.
Proof. intros H. unfold load. by rewrite H. Qed.

Lemma SetMode_Some (m : MemMapFs) (f : ptr) (fd : FileData) (mode' : Z) :
  heap m !! f = Some fd →
  mem.SetMode f mode' m = Ret tt (setHeap (<[f := withMode mode' fd]> (heap m)) m).
Proof. intros H. unfold mem.SetMode. by rewrite (bind_Ret _ _ _ _ _ (load_Some _ _ _ H)). Qed.

Lemma unrestrictedChmod_found (m : MemMapFs) (p : string) (f : ptr) (fd : FileData) (mode' : Z) :
  init m = true → data m !! normalizePath p = Some f → heap m !! f = Some fd →
  unrestrictedChmod p mode' m =
    Ret None (setHeap (<[f := withMode mode' fd]> (heap m)) m).
Proof.
  intros Hi Hp Hf. unfold unrestrictedChmod.
  rewrite (bind_Ret _ _ _ _ _ (getData_ready _ Hi)), Hp.
  by rewrite (bind_Ret _ _ _ _ _ (SetMode_Some _ _ _ _ Hf)).
Qed.


Lemma chmodBits_high (i : Z) : 32 ≤ i → Z.testbit chmodBits i = false.
Proof.
  intros Hi. replace chmodBits with (chmodBits mod 2 ^ 32) by reflexivity.
  apply Z.mod_pow2_bits_high. lia.
Qed.

Lemma chmodResult_bit (prev mode' i : Z) :
  0 ≤ prev < 2 ^ 32 → 0 ≤ i →
  Z.testbit (chmodResult prev mode') i =
    if Z.testbit chmodBits i then Z.testbit mode' i else Z.testbit prev i.
Proof.
  intros Hprev Hi. unfold chmodResult.
  rewrite Z.lor_spec, !Z.land_spec, Z.lxor_spec.
  destruct (Z_lt_le_dec i 32) as [Hlt|Hge].
  - rewrite Z.ones_spec_low by lia.
    destruct (Z.testbit chmodBits i), (Z.testbit prev i), (Z.testbit mode' i); reflexivity.
  - rewrite Z.ones_spec_high by lia. rewrite (chmodBits_high i Hge).
    replace prev with (prev mod 2 ^ 32) by (apply Z.mod_small; lia).
    rewrite Z.mod_pow2_bits_high by lia. by destruct (Z.testbit mode' i).
Qed.

Lemma chmodBits_replaceable (i : N) :
  Z.testbit chmodBits (Z.of_N i) = replaceableBit (Z.of_N i).
Proof.
  destruct (N.lt_ge_cases i 32) as [Hlt|Hge].
  - rewrite <- (N2Nat.id i). assert (Hn : (N.to_nat i < 32)%nat) by lia.
    generalize dependent (N.to_nat i). intros n Hn.
    do 32 (destruct n as [|n]; [reflexivity|]). lia.
  - rewrite chmodBits_high by lia. unfold replaceableBit. symmetry.
    repeat (apply orb_false_intro); [apply andb_false_intro2| | |]; lia.
Qed.

(** C5.  On an existing path, [Chmod] stores a mode whose permission bits
    (0 to 8) and sticky, setgid and setuid bits (20, 22, 23) are those of its
    argument and whose every other bit, the directory flag among them, is the
    bit the entry had before; the new state is the old one with the mode of
    that one object replaced, so no other field and no other object
    changes. *)
Theorem Chmod_replaces_only_chmodBits (m : MemMapFs) (p : string) (mode' : Z)
    (f : ptr) (fd : FileData) :
  init m = true →
  data m !! normalizePath p = Some f →
  heap m !! f = Some fd →
  0 ≤ mode fd < 2 ^ 32 →
  Chmod p mode' m =
    Ret None (setHeap (<[f := withMode (chmodResult (mode fd) mode') fd]> (heap m)) m)
  ∧ ∀ i : N,
      Z.testbit (chmodResult (mode fd) mode') (Z.of_N i) =
        if replaceableBit (Z.of_N i) then Z.testbit mode' (Z.of_N i)
        else Z.testbit (mode fd) (Z.of_N i).
Proof.
  intros Hi Hp Hf Hmode. split.
  - unfold Chmod. rewrite (bind_Ret _ _ _ _ _ (getData_ready _ Hi)), Hp.
    unfold mem.Mode, mem.GetFileInfo.
    rewrite bind_unfold, (bind_Ret _ _ _ _ _ (load_Some _ _ _ Hf)).
    rewrite ret_unfold.
    rewrite (unrestrictedChmod_found m _ f fd); [reflexivity|done| |done].
    by rewrite normalizePath_idem.
  - intros i. rewrite <- chmodBits_replaceable. apply chmodResult_bit; [done|lia].
Qed.

(** On the file [/d/f], of mode 0666: asking for the directory flag, setuid
    and 0755 stores setuid and 0755, without the directory flag. *)
Lemma Chmod_replaces_only_chmodBits_witness :
  Chmod "/d/f" (2 ^ 31 + 2 ^ 23 + 493) withDir =
    Ret None (setHeap (<[2%nat := withMode (2 ^ 23 + 493)
                                    (mkFileData "/d/f" [] None false createPerm 0)]>
                         (heap withDir)) withDir)
  ∧ ∀ i : N,
      Z.testbit (2 ^ 23 + 493) (Z.of_N i) =
        if replaceableBit (Z.of_N i) then Z.testbit (2 ^ 31 + 2 ^ 23 + 493) (Z.of_N i)
        else Z.testbit createPerm (Z.of_N i).
Proof.
  assert (H : 0 ≤ mode (mkFileData "/d/f" [] None false createPerm 0) < 2 ^ 32)
    by (vm_compute; split; congruence).
  exact (Chmod_replaces_only_chmodBits withDir "/d/f" (2 ^ 31 + 2 ^ 23 + 493) 2%nat
           (mkFileData "/d/f" [] None false createPerm 0) eq_refl eq_refl eq_refl H).
Defined.

Lemma bind_inv {A B : Type} (c : M A) (f : A → M B) (m m' : MemMapFs) (b : B) :
  (c ≫= f) m = Ret b m' → ∃ a m1, c m = Ret a m1 ∧ f a m1 = Ret b m'.
Proof.
  rewrite bind_unfold. destruct (c m) as [a m1| |]; [|discriminate..]. eauto.
Qed.

Lemma lockfreeOpen_ready (m : MemMapFs) (name : string) :
  init m = true →
  lockfreeOpen name m =
    Ret (match data m !! normalizePath name with
         | Some f => inl f
         | None => inr ErrFileNotFound
         end) m.
Proof.
  intros Hi. unfold lockfreeOpen. rewrite (bind_Ret _ _ _ _ _ (getData_ready _ Hi)).
  by destruct (data m !! normalizePath name).
Qed.

Lemma Stat_ready (m : MemMapFs) (name : string) :
  init m = true →
  Stat name m =
    Ret (match data m !! normalizePath name with
         | Some f => inl (mem.GetFileInfo f)
         | None => inr (PathError "open" (normalizePath name) ErrFileNotFound)
         end) m.
Proof.
  intros Hi. unfold Stat, Open, open. rewrite !bind_unfold.
  rewrite (getData_ready _ Hi). by destruct (data m !! normalizePath name).
Qed.

Lemma IsDir_Some (m : MemMapFs) (p : ptr) (fd : FileData) :
  heap m !! p = Some fd → mem.IsDir p m = Ret (dir fd) m.
Proof. intros H. unfold mem.IsDir. by rewrite (bind_Ret _ _ _ _ _ (load_Some _ _ _ H)). Qed.

Lemma requireParentDirectory_missing (m : MemMapFs) (op path : string) :
  init m = true →
  data m !! filepath.Dir (normalizePath path) = None →
  requireParentDirectory op path m =
    Ret (Some (PathError op (normalizePath path) ErrNotExist)) m.
Proof.
  intros Hi Hp. unfold requireParentDirectory. cbv zeta.
  rewrite bind_unfold, (Stat_ready _ _ Hi), normalizePath_Dir, Hp. reflexivity.
Qed.

Lemma requireParentDirectory_found (m : MemMapFs) (op path : string) (pp : ptr) (pfd : FileData) :
  init m = true →
  data m !! filepath.Dir (normalizePath path) = Some pp →
  heap m !! pp = Some pfd →
  requireParentDirectory op path m =
    Ret (if dir pfd then None else Some (PathError op (normalizePath path) ErrNotDir)) m.
Proof.
  intros Hi Hp Hpp. unfold requireParentDirectory. cbv zeta.
  rewrite bind_unfold, (Stat_ready _ _ Hi), normalizePath_Dir, Hp.
  unfold mem.GetFileInfo. rewrite bind_unfold, (IsDir_Some _ _ _ Hpp).
  by destruct (dir pfd).
Qed.

(** ** [Chtimes] *)

Lemma SetModTime_Some (m : MemMapFs) (f : ptr) (fd : FileData) (mtime : Z) :
  heap m !! f = Some fd →
  mem.SetModTime f mtime m = Ret tt (setHeap (<[f := withModTime mtime fd]> (heap m)) m).
Proof. intros H. unfold mem.SetModTime. by rewrite (bind_Ret _ _ _ _ _ (load_Some _ _ _ H)). Qed.

(** C10. [Chtimes] ignores its access-time argument: on an existing path, the
    call succeeds, its outcome is the same for any two access times, and the
    new state is the old one with the modification time of that one object
    replaced; nothing else changes. *)
Theorem Chtimes_ignores_atime (m : MemMapFs) (p : string) (a1 a2 mtime : Z)
    (f : ptr) (fd : FileData) :
  init m = true →
  data m !! normalizePath p = Some f →
  heap m !! f = Some fd →
  Chtimes p a1 mtime m = Ret None (setHeap (<[f := withModTime mtime fd]> (heap m)) m)
  ∧ Chtimes p a2 mtime m = Chtimes p a1 mtime m.
Proof.
  intros Hi Hp Hf. split; [|reflexivity].
  unfold Chtimes. cbv zeta. rewrite (bind_Ret _ _ _ _ _ (getData_ready _ Hi)), Hp.
  by rewrite (bind_Ret _ _ _ _ _ (SetModTime_Some _ _ _ _ Hf)).
Qed.

Lemma Chtimes_ignores_atime_witness :
  Chtimes "/" 11 42 (rootOnly 0) =
    Ret None (setHeap (<[0%nat := withModTime 42 (rootDir 0)]> (heap (rootOnly 0))) (rootOnly 0))
  ∧ Chtimes "/" 99 42 (rootOnly 0) = Chtimes "/" 11 42 (rootOnly 0).
Proof.
  apply (Chtimes_ignores_atime (rootOnly 0) "/" 11 99 42 0%nat (rootDir 0)); reflexivity.
Defined.

(** ** [Rename]: the failures *)

Lemma Rename_same (m : MemMapFs) (old new : string) :
  normalizePath old = normalizePath new → Rename old new m = Ret None m.
Proof. intros H. unfold Rename. cbv zeta. rewrite H, String.eqb_refl. reflexivity. Qed.

Lemma Rename_inside (m : MemMapFs) (old new : string) :
  normalizePath old ≠ normalizePath new →
  strings.HasPrefix (normalizePath new) (normalizePath old +:+ "/") = true →
  Rename old new m = Ret (Some (PathError "rename" (normalizePath new) ErrInvalid)) m.
Proof.
  intros Hne Hpre. unfold Rename. cbv zeta. apply String.eqb_neq in Hne. rewrite Hne.
  unfold FilePathSeparator. rewrite Hpre. reflexivity.
Qed.

Ltac msimpl :=
  repeat (progress (rewrite ?bind_unfold, ?ret_unfold; cbv beta; simpl)).

(** ** [Create] *)

Lemma CreateFile_run (m : MemMapFs) (name : string) :
  mem.CreateFile name m =
    Ret (length (heap m))
        (setHeap (heap m ++ [mkFileData name [] None false 0 (clock m)]) m).
Proof. reflexivity. Qed.

Lemma CreateDir_run (m : MemMapFs) (name : string) :
  mem.CreateDir name m =
    Ret (length (heap m))
        (setHeap (heap m ++ [mkFileData name [] (Some ∅) true 0 (clock m)]) m).
Proof. reflexivity. Qed.

Lemma setEntry_ready (m : MemMapFs) (k : string) (v : ptr) :
  init m = true → setEntry k v m = Ret tt (setTable (<[k := v]> (data m)) m).
Proof. intros Hi. unfold setEntry. by rewrite (bind_Ret _ _ _ _ _ (getData_ready _ Hi)). Qed.

Lemma deleteEntry_ready (m : MemMapFs) (k : string) :
  init m = true → deleteEntry k m = Ret tt (setTable (delete k (data m)) m).
Proof. intros Hi. unfold deleteEntry. by rewrite (bind_Ret _ _ _ _ _ (getData_ready _ Hi)). Qed.

Lemma walkDepth_ready (m : MemMapFs) :
  init m = true → walkDepth m = Ret (S (size (data m))) m.
Proof. intros Hi. unfold walkDepth. by rewrite (bind_Ret _ _ _ _ _ (getData_ready _ Hi)). Qed.

Lemma lockFreeRemoveAll_absent (m : MemMapFs) (depth : nat) (path : string) :
  init m = true → data m !! normalizePath path = None →
  lockFreeRemoveAll (S depth) path m = Ret tt m.
Proof.
  intros Hi Habs. simpl. rewrite bind_unfold, (lockfreeOpen_ready _ _ Hi).
  by rewrite normalizePath_idem, Habs.
Qed.

Lemma findParent_ready (m : MemMapFs) (f : ptr) (fd : FileData) :
  init m = true → heap m !! f = Some fd →
  findParent f m = Ret (data m !! normalizePath (filepath.Dir (name fd))) m.
Proof.
  intros Hi Hf. unfold findParent. rewrite (bind_Ret _ _ _ _ _ (load_Some _ _ _ Hf)).
  cbv zeta. rewrite bind_unfold, (lockfreeOpen_ready _ _ Hi).
  fold (filepath.Dir (name fd)).
  by destruct (data m !! normalizePath (filepath.Dir (name fd))).
Qed.

Lemma registerWithParent_run (m : MemMapFs) (f pp : ptr) (fd pfd : FileData) :
  init m = true → heap m !! f = Some fd →
  data m !! normalizePath (filepath.Dir (name fd)) = Some pp →
  heap m !! pp = Some pfd → dir pfd = true → pp ≠ f →
  registerWithParent (Some f) m =
    Ret tt (setHeap (<[pp := withChild (mem.baseName fd) pfd]> (heap m)) m).
Proof.
  intros Hi Hf Hpar Hpp Hdir Hne. unfold registerWithParent.
  rewrite (bind_Ret _ _ _ _ _ (findParent_ready _ _ _ Hi Hf)), Hpar.
  unfold mem.InitializeDir, mem.AddToMemDir.
  rewrite bind_unfold, (bind_Ret _ _ _ _ _ (load_Some _ _ _ Hpp)).
  destruct pfd as [pn pc [names|] pd pmo pt]; simpl in *; subst pd.
  - rewrite (bind_Ret _ _ _ _ _ (load_Some _ _ _ Hf)).
    by rewrite (bind_Ret _ _ _ _ _ (load_Some _ _ _ Hpp)).
  - unfold load, store. msimpl.
    rewrite list_lookup_insert_ne by done. rewrite Hf. msimpl.
    rewrite list_lookup_insert_eq by (by eapply lookup_lt_Some). msimpl.
    unfold setHeap, withChild. simpl. by rewrite list_insert_insert_eq.
Qed.

Lemma SetMode_last (m : MemMapFs) (fd : FileData) (mode' : Z) :
  mem.SetMode (length (heap m)) mode' (setHeap (heap m ++ [fd]) m) =
    Ret tt (setHeap (heap m ++ [withMode mode' fd]) m).
Proof.
  unfold mem.SetMode, load, store. msimpl.
  rewrite lookup_app_r by done. rewrite Nat.sub_diag. msimpl.
  unfold setHeap. simpl. f_equal. f_equal.
  rewrite insert_app_r_alt by done. by rewrite Nat.sub_diag.
Qed.

Lemma Create_fresh (m : MemMapFs) (path : string) (pp : ptr) (pfd : FileData) :
  init m = true →
  data m !! filepath.Dir (normalizePath path) = Some pp →
  heap m !! pp = Some pfd → dir pfd = true →
  data m !! normalizePath path = None →
  Create path m =
    Ret (Some (mem.NewFileHandle (length (heap m))), None)
        (afterCreate m (normalizePath path) pp pfd).
Proof.
  intros Hi Hpar Hpp Hdir Habs. unfold Create. cbv zeta.
  set (name := normalizePath path) in *.
  assert (Hname : normalizePath name = name) by apply normalizePath_idem.
  rewrite bind_unfold.
  rewrite (requireParentDirectory_found m "open" name pp pfd Hi)
    by (by rewrite ?Hname). rewrite Hdir.
  rewrite bind_unfold, (Stat_ready _ _ Hi), Hname, Habs.
  change (IsNotExist (PathError "open" name ErrFileNotFound)) with true. cbv iota.
  rewrite (bind_Ret _ _ _ _ _ (walkDepth_ready _ Hi)).
  rewrite bind_unfold, (lockFreeRemoveAll_absent _ _ _ Hi) by (by rewrite Hname).
  rewrite bind_unfold, CreateFile_run.
  rewrite bind_unfold, SetMode_last.
  rewrite bind_unfold, setEntry_ready by done.
  assert (Hlt : (pp < length (heap m))%nat) by (by eapply lookup_lt_Some).
  rewrite bind_unfold.
  rewrite (registerWithParent_run _ (length (heap m)) pp
             (createdFile name (clock m)) pfd); try done.
  - simpl. by rewrite lookup_app_r, Nat.sub_diag.
  - simpl. unfold name. rewrite normalizePath_Dir. fold name.
    rewrite lookup_insert_ne; [done|]. intros E. rewrite E in Habs. congruence.
  - simpl. by rewrite lookup_app_l.
  - lia.
Qed.

Lemma Create_existing (m : MemMapFs) (path : string) (pp p : ptr) (pfd fd : FileData) :
  init m = true →
  data m !! filepath.Dir (normalizePath path) = Some pp →
  heap m !! pp = Some pfd → dir pfd = true →
  data m !! normalizePath path = Some p → heap m !! p = Some fd →
  Create path m =
    if dir fd then Ret (None, Some (PathError "open" (normalizePath path) ErrIsDir)) m
    else Ret (Some (mem.NewFileHandle p), None)
             (setHeap (<[p := withContent [] (clock m) fd]> (heap m)) m).
Proof.
  intros Hi Hpar Hpp Hdir Hp Hfd. unfold Create. cbv zeta.
  set (name := normalizePath path) in *.
  assert (Hname : normalizePath name = name) by apply normalizePath_idem.
  rewrite bind_unfold.
  rewrite (requireParentDirectory_found m "open" name pp pfd Hi)
    by (by rewrite ?Hname). rewrite Hdir.
  rewrite bind_unfold, (Stat_ready _ _ Hi), Hname, Hp.
  unfold mem.GetFileInfo. rewrite bind_unfold, (IsDir_Some _ _ _ Hfd).
  destruct (dir fd); [reflexivity|].
  rewrite (bind_Ret _ _ _ _ _ (getData_ready _ Hi)), Hp.
  unfold mem.Truncate, mem.NewFileHandle. simpl fileData. simpl readOnly.
  rewrite bind_unfold, (bind_Ret _ _ _ _ _ (load_Some _ _ _ Hfd)).
  reflexivity.
Qed.

Lemma Create_parent_missing (m : MemMapFs) (path : string) :
  init m = true →
  data m !! filepath.Dir (normalizePath path) = None →
  Create path m =
    Ret (None, Some (PathError "open" (normalizePath path) ErrNotExist)) m.
Proof.
  intros Hi Hpar. unfold Create. cbv zeta.
  rewrite bind_unfold, (requireParentDirectory_missing _ _ _ Hi);
    rewrite normalizePath_idem; done.
Qed.

(** C2, amended.  For every path whose parent directory exists: when no
    entry is at the path, [Create] succeeds and returns a writable handle to a
    fresh zero-length file, entered in the table and in the parent's child
    set; when an entry is at the path and is a file, [Create] succeeds and
    returns a writable handle to that same object, emptied; when it is a
    directory, [Create] fails with `IsADirectory` and changes nothing. *)
Theorem Create_result (m : MemMapFs) (path : string) (pp : ptr) (pfd : FileData) :
  init m = true →
  data m !! filepath.Dir (normalizePath path) = Some pp →
  heap m !! pp = Some pfd → dir pfd = true →
  match data m !! normalizePath path with
  | None =>
      Create path m =
        Ret (Some (mem.NewFileHandle (length (heap m))), None)
            (afterCreate m (normalizePath path) pp pfd)
  | Some p =>
      ∀ fd : FileData, heap m !! p = Some fd →
        Create path m =
          if dir fd
          then Ret (None, Some (PathError "open" (normalizePath path) ErrIsDir)) m
          else Ret (Some (mem.NewFileHandle p), None)
                   (setHeap (<[p := withContent [] (clock m) fd]> (heap m)) m)
  end.
Proof.
  intros Hi Hpar Hpp Hdir.
  destruct (data m !! normalizePath path) as [p|] eqn:Hp.
  - intros fd Hfd. by eapply Create_existing.
  - by apply Create_fresh.
Qed.

Lemma Create_result_witness :
  Create "/f" (rootOnly 7) =
    Ret (Some (mem.NewFileHandle 1), None)
        (afterCreate (rootOnly 7) "/f" 0%nat (rootDir 7)).
Proof.
  apply (Create_result (rootOnly 7) "/f" 0%nat (rootDir 7)); reflexivity.
Defined.

Lemma withDir_reached :
  (Mkdir "/d" 493;; Create "/d/f") (NewMemMapFs 0) =
    Ret (Some (mem.NewFileHandle 2), None) withDir.
Proof. vm_compute. reflexivity. Qed.

(** C2 as stated fails: the parent of [/d] exists, yet [Create] on the
    directory [/d] returns an error and leaves the directory and its content
    as they were. *)
Lemma Create_on_directory_fails :
  rootIsDir withDir
  ∧ filepath.Dir (normalizePath "/d") = "/"
  ∧ Create "/d" withDir = Ret (None, Some (PathError "open" "/d" ErrIsDir)) withDir.
Proof.
  split; [|split]; [|reflexivity|vm_compute; reflexivity].
  exists 0%nat, (mkFileData "/" [] (Some {["d"]}) true (Z.lor ModeDir 493) 0).
  by repeat split.
Qed.

(** ** [MkdirAll] *)

Lemma afterInit_init (m : MemMapFs) : init (afterInit m) = true.
Proof. unfold afterInit. by destruct (init m) eqn:E. Qed.

Lemma afterInit_ready (m : MemMapFs) : init m = true → afterInit m = m.
Proof. intros H. unfold afterInit. by rewrite H. Qed.

Lemma getData_run (m : MemMapFs) : getData m = Ret (data (afterInit m)) (afterInit m).
Proof.
  destruct (init m) eqn:Hi.
  - rewrite (afterInit_ready _ Hi). by apply getData_ready.
  - unfold getData, afterInit, onceDone. rewrite bind_unfold, Hi.
    unfold initOnce, putTable. msimpl.
    change (heap m) with (heap (setTable ∅ m)) at 1 2.
    rewrite SetMode_last. reflexivity.
Qed.

Lemma Stat_run (m : MemMapFs) (name : string) :
  Stat name m = Stat name (afterInit m).
Proof.
  unfold Stat, Open, open. rewrite !bind_unfold, !getData_run.
  by rewrite (afterInit_ready _ (afterInit_init m)).
Qed.

Lemma afterInit_idem (m : MemMapFs) : afterInit (afterInit m) = afterInit m.
Proof. apply afterInit_ready, afterInit_init. Qed.

Lemma afterInit_absent (m : MemMapFs) (k : string) :
  k ≠ FilePathSeparator → data m !! k = None → data (afterInit m) !! k = None.
Proof.
  intros Hk H. unfold afterInit. destruct (init m); [done|]. simpl.
  by apply lookup_singleton_ne.
Qed.

Lemma requireParentDirectory_run (m : MemMapFs) (op path : string) :
  requireParentDirectory op path m = requireParentDirectory op path (afterInit m).
Proof. unfold requireParentDirectory. cbv zeta. by rewrite !bind_unfold, <- Stat_run. Qed.

Lemma Create_run (m : MemMapFs) (path : string) :
  Create path m = Create path (afterInit m).
Proof. unfold Create. cbv zeta. by rewrite !bind_unfold, <- requireParentDirectory_run. Qed.

(** C4, amended.  For paths whose normal forms differ and where the new one
    is not strictly inside the old one: [Rename] fails with `NotFound`
    whenever the old path is absent from the table (the error names the old
    path) and, the old path present, whenever the parent of the new path is
    absent (the error names that parent).  The table is the one the call
    finds: on a filesystem not used before, the one with the root only, which
    the call makes.  But for this making of the root the state is
    unchanged. *)
Theorem Rename_NotFound (m : MemMapFs) (old new : string) :
  normalizePath old ≠ normalizePath new →
  strings.HasPrefix (normalizePath new) (normalizePath old +:+ "/") = false →
  data (afterInit m) !! normalizePath old = None
  ∨ data (afterInit m) !! filepath.Dir (normalizePath new) = None →
  Rename old new m =
    Ret (Some (PathError "rename"
                 (match data (afterInit m) !! normalizePath old with
                  | Some _ => filepath.Dir (normalizePath new)
                  | None => normalizePath old
                  end)
                 ErrFileNotFound)) (afterInit m).
Proof.
  intros Hne Hpre Habs. unfold Rename. cbv zeta. apply String.eqb_neq in Hne. rewrite Hne.
  unfold FilePathSeparator. rewrite Hpre.
  rewrite (bind_Ret _ _ _ _ _ (getData_run m)).
  destruct (data (afterInit m) !! normalizePath old) as [f|] eqn:Hold; [|reflexivity].
  destruct Habs as [?|Hpar]; [done|].
  rewrite (bind_Ret _ _ _ _ _ (getData_run (afterInit m))), afterInit_idem, Hpar.
  reflexivity.
Qed.

(** On a filesystem not used before, and on one in use. *)
Lemma Rename_NotFound_witness :
  Rename "/a" "/gone/b" (NewMemMapFs 0) =
    Ret (Some (PathError "rename" "/a" ErrFileNotFound)) (rootOnly 0)
  ∧ Rename "/d/f" "/gone/b" withDir =
      Ret (Some (PathError "rename" "/gone" ErrFileNotFound)) withDir.
Proof.
  split.
  - apply (Rename_NotFound (NewMemMapFs 0) "/a" "/gone/b");
      [discriminate | reflexivity | left; reflexivity].
  - apply (Rename_NotFound withDir "/d/f" "/gone/b");
      [discriminate | reflexivity | right; reflexivity].
Defined.

(** C4 as stated fails: a rename of an absent path onto itself returns no
    error. *)
Lemma Rename_absent_onto_itself :
  data (rootOnly 0) !! normalizePath "/nope" = None
  ∧ Rename "/nope" "/nope" (rootOnly 0) = Ret None (rootOnly 0).
Proof. split; reflexivity. Qed.

(** C7, amended.  In a state without [/foo], [Create "/foo/bar"] fails with
    `NotFound`, the operation being [open] and the offending path the
    normalized path [/foo/bar]; nothing changes, but that on a filesystem not
    used before the call makes the root, as any first call does. *)
Theorem Create_without_parent (m : MemMapFs) :
  data m !! "/foo" = None →
  Create "/foo/bar" m =
    Ret (None, Some (PathError "open" "/foo/bar" ErrNotExist)) (afterInit m).
Proof.
  intros Hfoo. rewrite Create_run.
  apply (Create_parent_missing (afterInit m) "/foo/bar"); [apply afterInit_init|].
  by apply (afterInit_absent m "/foo").
Qed.

(** On a filesystem not used before, and on one in use. *)
Lemma Create_without_parent_witness :
  Create "/foo/bar" (NewMemMapFs 0) =
    Ret (None, Some (PathError "open" "/foo/bar" ErrNotExist)) (rootOnly 0)
  ∧ Create "/foo/bar" withDir =
      Ret (None, Some (PathError "open" "/foo/bar" ErrNotExist)) withDir.
Proof.
  split.
  - apply (Create_without_parent (NewMemMapFs 0)); reflexivity.
  - apply (Create_without_parent withDir); reflexivity.
Defined.

(** C7 as stated fails: the error does not carry the path [foo/bar]. *)
Lemma Create_without_parent_path :
  data (rootOnly 0) !! "/foo" = None
  ∧ ¬ ∃ (op : string) (err : error) (m' : MemMapFs),
        Create "/foo/bar" (rootOnly 0) = Ret (None, Some (PathError op "foo/bar" err)) m'.
Proof.
  split; [reflexivity|]. intros (op & err & m' & H).
  assert (E : Create "/foo/bar" (rootOnly 0) =
               Ret (None, Some (PathError "open" "/foo/bar" ErrNotExist)) (rootOnly 0))
    by (vm_compute; reflexivity).
  rewrite E in H. discriminate H.
Qed.

Lemma keepsDirs_refl (h : list FileData) : keepsDirs h h.
Proof. intros q fd H1 H2. eauto. Qed.

Lemma keepsDirs_trans (h1 h2 h3 : list FileData) :
  keepsDirs h1 h2 → keepsDirs h2 h3 → keepsDirs h1 h3.
Proof.
  intros H12 H23 q fd H1 Hd. destruct (H12 q fd H1 Hd) as (fd' & H2 & Hd'). eauto.
Qed.

Lemma keepsDirs_insert (h : list FileData) (p : ptr) (old new : FileData) :
  h !! p = Some old → (dir old = true → dir new = true) →
  keepsDirs h (<[p := new]> h).
Proof.
  intros Hp Hd q fd Hq Hdq. destruct (decide (p = q)) as [->|Hne].
  - exists new. rewrite list_lookup_insert_eq by (by eapply lookup_lt_Some).
    split; [done|]. apply Hd. congruence.
  - exists fd. by rewrite list_lookup_insert_ne.
Qed.

Lemma requireParentDirectory_ready (m : MemMapFs) (op path : string) :
  init m = true →
  requireParentDirectory op path m =
    match data m !! filepath.Dir (normalizePath path) with
    | None => Ret (Some (PathError op (normalizePath path) ErrNotExist)) m
    | Some pp =>
        match heap m !! pp with
        | Some pfd =>
            Ret (if dir pfd then None
                 else Some (PathError op (normalizePath path) ErrNotDir)) m
        | None => Panic "invalid memory address or nil pointer dereference"
        end
    end.
Proof.
  intros Hi. destruct (data m !! _) as [pp|] eqn:Hp.
  - destruct (heap m !! pp) as [pfd|] eqn:Hpp.
    + by eapply requireParentDirectory_found.
    + unfold requireParentDirectory. cbv zeta.
      rewrite bind_unfold, (Stat_ready _ _ Hi), normalizePath_Dir, Hp.
      unfold mem.GetFileInfo, mem.IsDir, load. msimpl. by rewrite Hpp.
  - by apply requireParentDirectory_missing.
Qed.

Lemma registerWithParent_inv (m m' : MemMapFs) (f : ptr) :
  init m = true → registerWithParent (Some f) m = Ret tt m' →
  data m' = data m ∧ init m' = true ∧ keepsDirs (heap m) (heap m').
Proof.
  intros Hi H. unfold registerWithParent in H.
  destruct (heap m !! f) as [fd|] eqn:Hf.
  2:{ unfold findParent, load in H. rewrite !bind_unfold, Hf in H. discriminate. }
  rewrite (bind_Ret _ _ _ _ _ (findParent_ready _ _ _ Hi Hf)) in H.
  destruct (data m !! _) as [pp|]; [|unfold load in H; msimpl; by rewrite bind_unfold, Hf in H].
  unfold mem.InitializeDir, mem.AddToMemDir, load, store in H.
  rewrite !bind_unfold in H.
  destruct (heap m !! pp) as [pfd|] eqn:Hpp; [|discriminate].
  destruct (memDir pfd) as [names|] eqn:Hmd.
  - rewrite !ret_unfold in H. cbv beta iota in H. rewrite !bind_unfold, Hf in H.
    rewrite bind_unfold, Hpp, Hmd in H. injection H as <-. simpl.
    repeat split; [done|]. by eapply keepsDirs_insert.
  - cbv beta iota in H. rewrite bind_unfold in H. simpl in H.
    destruct (<[pp := _]> (heap m) !! f) as [child|]; [|discriminate].
    rewrite bind_unfold in H. simpl in H.
    rewrite list_lookup_insert_eq in H by (by eapply lookup_lt_Some).
    simpl in H. injection H as <-. simpl. repeat split; [done|].
    rewrite list_insert_insert_eq. by eapply keepsDirs_insert.
Qed.

Lemma unrestrictedChmod_inv (m m' : MemMapFs) (name : string) (mode' : Z)
    (err : option error) :
  init m = true → unrestrictedChmod name mode' m = Ret err m' →
  init m' = true ∧ data m' = data m ∧ keepsDirs (heap m) (heap m').
Proof.
  intros Hi H. unfold unrestrictedChmod in H. cbv zeta in H.
  rewrite (bind_Ret _ _ _ _ _ (getData_ready _ Hi)) in H.
  destruct (data m !! normalizePath name) as [f|].
  - unfold mem.SetMode, load, store in H. rewrite !bind_unfold in H.
    destruct (heap m !! f) as [fd|] eqn:Hf; [|discriminate].
    injection H as _ <-. simpl. repeat split; [done|]. by eapply keepsDirs_insert.
  - injection H as _ <-. repeat split; [done|]. apply keepsDirs_refl.
Qed.

Lemma requireParentDirectory_state (m m' : MemMapFs) (op path : string)
    (err : option error) :
  init m = true → requireParentDirectory op path m = Ret err m' → m' = m.
Proof.
  intros Hi H. rewrite (requireParentDirectory_ready _ _ _ Hi) in H.
  destruct (data m !! _) as [pp|]; [|congruence].
  destruct (heap m !! pp); congruence.
Qed.

(** What a call of [Mkdir] that returns leaves behind. *)
Lemma Mkdir_inv (m m' : MemMapFs) (name : string) (perm : Z) (err : option error) :
  init m = true → Mkdir name perm m = Ret err m' →
  init m' = true ∧ (err = None → dirAt m' (normalizePath name)).
Proof.
  intros Hi H. unfold Mkdir in H. cbv zeta in H.
  rewrite (bind_Ret _ _ _ _ _ (getData_ready _ Hi)) in H.
  destruct (data m !! normalizePath name) as [f|] eqn:Hname.
  { injection H as <- <-. by split. }
  apply bind_inv in H as (perr & m1 & Hreq & H).
  pose proof (requireParentDirectory_state _ _ _ _ _ Hi Hreq) as ->.
  destruct perr as [perr|]. { injection H as <- <-. by split. }
  rewrite bind_unfold, CreateDir_run in H.
  rewrite bind_unfold, setEntry_ready in H by done.
  apply bind_inv in H as ([] & m2 & Hreg & H).
  apply registerWithParent_inv in Hreg as (Hd2 & Hi2 & Hk2); [|done].
  pose proof (unrestrictedChmod_inv _ _ _ _ _ Hi2 H) as (Hi3 & Hd3 & Hk3).
  split; [done|]. intros _.
  simpl in Hd2, Hk2.
  destruct (Hk2 (length (heap m)) (mkFileData (normalizePath name) [] (Some ∅) true 0 (clock m)))
    as (fd2 & Hfd2 & Hdir2); [by rewrite lookup_app_r, Nat.sub_diag|done|].
  destruct (Hk3 _ _ Hfd2 Hdir2) as (fd3 & Hfd3 & Hdir3).
  exists (length (heap m)), fd3. repeat split; [|done|done].
  by rewrite Hd3, Hd2, lookup_insert_eq.
Qed.

Lemma mkdirEach_last (dirs : list string) (d : string) (perm : Z) (m m' : MemMapFs) :
  init m = true → mkdirEach (dirs ++ [d]) perm m = Ret None m' →
  ∃ m1, init m1 = true ∧ Mkdir d perm m1 = Ret None m'.
Proof.
  revert m. induction dirs as [|x dirs IH]; intros m Hi H; simpl in H.
  - apply bind_inv in H as (err & m1 & Hmk & H).
    destruct err; [discriminate|]. injection H as <-. eauto.
  - apply bind_inv in H as (err & m1 & Hmk & H).
    destruct err; [discriminate|].
    apply (IH m1); [|done]. by apply (Mkdir_inv _ _ _ _ _ Hi Hmk).
Qed.

(** What the loop of [findMissingDirs] returns when it returns no error:
    the paths it adds begin with the path it started from, and it adds none
    only at the root or at a directory. *)
Lemma findMissingDirsFrom_inv (steps : nat) (cur : string) (acc l : list string)
    (m m' : MemMapFs) :
  init m = true → findMissingDirsFrom steps cur acc m = Ret (l, None) m' →
  m' = m ∧
  ((l = acc ∧ (cur = FilePathSeparator ∨ dirAt m (normalizePath cur)))
   ∨ ∃ rest, l = (acc ++ cur :: rest)%list).
Proof.
  intros Hi. revert cur acc. induction steps as [|steps IH]; intros cur acc H;
    [discriminate|]. simpl in H.
  destruct (String.eqb_spec cur FilePathSeparator) as [->|Hne].
  { injection H as <- <-. split; [done|]. left. by split; [|left]. }
  rewrite bind_unfold, (Stat_ready _ _ Hi) in H.
  destruct (data m !! normalizePath cur) as [f|] eqn:Hcur.
  - unfold mem.GetFileInfo, mem.IsDir, load in H. rewrite !bind_unfold in H.
    destruct (heap m !! f) as [fd|] eqn:Hf; [|discriminate].
    rewrite ret_unfold in H. cbv beta iota in H.
    destruct (dir fd) eqn:Hd; [|discriminate].
    injection H as <- <-. split; [done|]. left. split; [done|]. right.
    by exists f, fd.
  - change (IsNotExist (PathError "open" (normalizePath cur) ErrFileNotFound))
      with true in H. cbv iota in H.
    apply IH in H as [-> [[-> _]|(rest & ->)]]; (split; [done|]); right.
    + by exists [].
    + exists (filepath.Dir cur :: rest). by rewrite <- app_assoc.
Qed.

Lemma findMissingDirsFrom_afterInit (steps : nat) (cur : string) (acc : list string)
    (m : MemMapFs) :
  cur ≠ FilePathSeparator →
  findMissingDirsFrom steps cur acc m = findMissingDirsFrom steps cur acc (afterInit m).
Proof.
  intros Hne. destruct steps as [|steps]; [reflexivity|]. simpl.
  apply String.eqb_neq in Hne. rewrite Hne.
  rewrite !bind_unfold, (Stat_run m), (Stat_ready _ _ (afterInit_init m)).
  reflexivity.
Qed.

Lemma findMissingDirsFrom_S (steps : nat) (cur : string) (acc : list string) :
  findMissingDirsFrom (S steps) cur acc =
    if String.eqb cur FilePathSeparator then mret (acc, None)
    else
      r ← Stat cur;
      match r with
      | inr err =>
          if IsNotExist err
          then findMissingDirsFrom steps (filepath.Dir cur) (acc ++ [cur])
          else mret ([], Some err)
      | inl info =>
          isdir ← mem.IsDir info;
          if isdir : bool then mret (acc, None)
          else mret ([], Some (PathError "mkdirall" cur ErrNotDir))
      end.
Proof. reflexivity. Qed.

(** [MkdirAll] has nothing to do, and says so, at the root and at a directory. *)
Lemma MkdirAll_done (m : MemMapFs) (path : string) (perm : Z) :
  normalizePath path = FilePathSeparator
  ∨ (init m = true ∧ dirAt m (normalizePath path)) →
  MkdirAll path perm m = Ret None m.
Proof.
  intros H. unfold MkdirAll, findMissingDirs. cbv zeta. rewrite bind_unfold.
  rewrite findMissingDirsFrom_S.
  destruct (String.eqb_spec (normalizePath path) FilePathSeparator) as [E|Hne];
    [reflexivity|].
  destruct H as [?|(Hi & f & fd & Hp & Hf & Hd)]; [done|].
  rewrite bind_unfold, (Stat_ready _ _ Hi), normalizePath_idem, Hp.
  unfold mem.GetFileInfo. rewrite bind_unfold, (IsDir_Some _ _ _ Hf), Hd.
  reflexivity.
Qed.

(** C6.  [MkdirAll] is idempotent: when a call returns no error, the same call
    made right after it returns no error either and changes nothing; more
    generally [MkdirAll] returns no error whenever the directory is already
    there. *)
Theorem MkdirAll_idempotent (m m' : MemMapFs) (path : string) (perm : Z) :
  MkdirAll path perm m = Ret None m'
  ∨ (m' = m ∧ init m = true ∧ dirAt m (normalizePath path)) →
  MkdirAll path perm m' = Ret None m'.
Proof.
  intros [H|(-> & Hi & Hdir)]; apply MkdirAll_done; [|by right].
  destruct (String.eqb_spec (normalizePath path) FilePathSeparator) as [E|Hne];
    [by left|right].
  unfold MkdirAll, findMissingDirs in H. cbv zeta in H.
  rewrite bind_unfold, (findMissingDirsFrom_afterInit _ _ _ _ Hne) in H.
  destruct (findMissingDirsFrom _ _ _ _) as [[l err] m0| |] eqn:Hfind;
    [|discriminate..].
  destruct err as [err|]; [discriminate|].
  apply findMissingDirsFrom_inv in Hfind as [-> Hl]; [|apply afterInit_init].
  destruct Hl as [[-> [?|Hdir]]|(rest & ->)]; [done| |].
  - injection H as <-. rewrite normalizePath_idem in Hdir.
    split; [apply afterInit_init|done].
  - simpl in H.
    apply mkdirEach_last in H as (m1 & Hi1 & Hmk); [|apply afterInit_init].
    apply Mkdir_inv in Hmk as [Hi' Hdir]; [|done].
    split; [done|]. rewrite <- (normalizePath_idem path). by apply Hdir.
Qed.

Lemma MkdirAll_idempotent_witness :
  MkdirAll "/a/b" 493 (NewMemMapFs 0) = Ret None madeAB
  ∧ MkdirAll "/a/b" 493 madeAB = Ret None madeAB.
Proof.
  assert (H : MkdirAll "/a/b" 493 (NewMemMapFs 0) = Ret None madeAB)
    by (vm_compute; reflexivity).
  split; [exact H|].
  apply (MkdirAll_idempotent (NewMemMapFs 0) madeAB "/a/b" 493). left. exact H.
Defined.

(** ** The loop of [findMissingDirs] ends within the turns it is given *)

Lemma length_append (a b : string) :
  String.length (a +:+ b) = (String.length a + String.length b)%nat.
Proof. induction a as [|c a IH]; [reflexivity|]. simpl. by rewrite IH. Qed.

Lemma length_concat (es : list string) :
  Forall properElem es → (length es ≤ S (String.length (String.concat "/" es)))%nat.
Proof.
  induction es as [|e es IH]; intros H; [simpl; lia|].
  inversion H as [|? ? He Hes]; subst. specialize (IH Hes).
  assert (1 ≤ String.length e)%nat by (destruct e; [by destruct He|simpl; lia]).
  destruct es as [|e' es']; [simpl; lia|].
  change (String.concat "/" (e :: e' :: es'))
    with (e +:+ "/" +:+ String.concat "/" (e' :: es')).
  remember (String.concat "/" (e' :: es')) as t.
  rewrite !length_append. simpl in *. lia.
Qed.

Lemma length_canon (es : list string) :
  Forall properElem es → (length es ≤ String.length (canon es))%nat.
Proof.
  intros H. apply length_concat in H.
  change (String.length (canon es)) with (S (String.length (String.concat "/" es))).
  lia.
Qed.

Lemma findMissingDirsFrom_fuel (es : list string) :
  Forall properElem es →
  ∀ (steps : nat) (acc : list string) (m : MemMapFs),
    (length es < steps)%nat →
    findMissingDirsFrom steps (canon es) acc m ≠ OutOfFuel.
Proof.
  induction es as [|e es IH] using rev_ind; intros Hes steps acc m Hlt;
    (destruct steps as [|steps]; [simpl in Hlt; lia|]).
  - discriminate.
  - apply Forall_app in Hes as [Hes He]. inversion He as [|? ? He' _]; subst.
    rewrite length_app in Hlt. simpl in Hlt.
    rewrite findMissingDirsFrom_S.
    destruct (String.eqb _ FilePathSeparator); [discriminate|].
    rewrite bind_unfold, Stat_run, (Stat_ready _ _ (afterInit_init m)).
    destruct (data (afterInit m) !! _) as [f|].
    + unfold mem.GetFileInfo, mem.IsDir, load. rewrite !bind_unfold.
      destruct (heap (afterInit m) !! f) as [fd|]; [|discriminate].
      rewrite ret_unfold. cbv beta iota. by destruct (dir fd).
    + change (IsNotExist (PathError "open" ?p ErrFileNotFound)) with true. cbv iota.
      rewrite Dir_canon_snoc by done. apply IH; [done|lia].
Qed.

(** [findMissingDirs] never uses up its turns. *)
Lemma findMissingDirs_ends (m : MemMapFs) (path : string) :
  findMissingDirs path m ≠ OutOfFuel.
Proof.
  unfold findMissingDirs. cbv zeta.
  destruct (normalizePath_canon path) as (es & Hes & ->).
  apply findMissingDirsFrom_fuel; [done|]. pose proof (length_canon es Hes). lia.
Qed.

(** * The model on ordinary use *)

Lemma madeAB_reachable : reachable madeAB.
Proof.
  apply (reachable_call (NewMemMapFs 0) madeAB (CallMkdirAll "/a/b" 493) None).
  - apply reachable_new.
  - vm_compute. reflexivity.
Qed.

Lemma madeAB_symmetric : symmetric madeAB.
Proof.
  intros path p fd names Hp Hf Hm. simpl in Hp.
  apply lookup_insert_Some in Hp as [[<- <-]|[_ Hp]];
    [|apply lookup_insert_Some in Hp as [[<- <-]|[_ Hp]];
      [|apply lookup_singleton_Some in Hp as [<- <-]]];
    injection Hf as <-; injection Hm as <-; vm_compute; reflexivity.
Qed.

(** Renaming a directory moves its subtree: the object of the directory is
    the same at both keys while the children are moved. *)
Lemma Rename_directory :
  Rename "/d" "/e" withDir =
    Ret None
      (mkFs [mkFileData "/" [] (Some {["e"]}) true (Z.lor ModeDir 493) 0;
             mkFileData "/e" [] (Some {["f"]}) true (Z.lor ModeDir 493) 0;
             mkFileData "/e/f" [] None false createPerm 0]
            (<["/e/f" := 2%nat]> (<["/e" := 1%nat]> {["/" := 0%nat]})) true 0).
Proof. vm_compute. reflexivity. Qed.

(** * The root can be renamed and removed *)

Lemma renamedRoot_reachable : reachable renamedRoot.
Proof.
  apply (reachable_call (NewMemMapFs 0) renamedRoot (CallRename "/" "/x") None).
  - apply reachable_new.
  - vm_compute. reflexivity.
Qed.

(** C1 fails on the code.  [Rename "/" "/x"] on a new filesystem returns no
    error and leaves one entry, [/x], whose child set holds [x] although the
    table has no entry under [/x]: the root registered itself as its own
    child, and the symmetry of the table is lost. *)
Theorem Rename_root_breaks_symmetry :
  Rename "/" "/x" (NewMemMapFs 0) = Ret None renamedRoot
  ∧ reachable renamedRoot
  ∧ ¬ symmetric renamedRoot.
Proof.
  split; [vm_compute; reflexivity|]. split; [apply renamedRoot_reachable|].
  intros H.
  specialize (H "/x" 0%nat _ {["x"]} eq_refl eq_refl eq_refl).
  assert (Hx : "x" ∈ childNames (data renamedRoot) "/x") by (rewrite <- H; set_solver).
  unfold childNames in Hx. apply elem_of_map in Hx as (k & Hk & Hin).
  apply elem_of_filter in Hin as [[Hne Hdir] Hdom].
  simpl in Hdom. rewrite dom_singleton_L in Hdom. apply elem_of_singleton in Hdom.
  subst k. discriminate Hdir.
Qed.

(** C3 fails on the code.  [RemoveAll "/"] on a new filesystem returns no
    error and leaves the table empty; the root is not made again, since the
    [sync.Once] has fired: a later [Stat "/"] finds nothing. *)
Theorem RemoveAll_root_removes_root :
  RemoveAll "/" (NewMemMapFs 0) = Ret None emptied
  ∧ reachable emptied
  ∧ ¬ rootIsDir emptied
  ∧ Stat "/" emptied = Ret (inr (PathError "open" "/" ErrNotExist)) emptied.
Proof.
  assert (H : RemoveAll "/" (NewMemMapFs 0) = Ret None emptied)
    by (vm_compute; reflexivity).
  split; [exact H|]. split; [|split].
  - by apply (reachable_call (NewMemMapFs 0) emptied (CallRemoveAll "/") None);
      [apply reachable_new|].
  - intros (p & fd & Hp & _). discriminate Hp.
  - vm_compute. reflexivity.
Qed.

(** C8 fails on the code.  After [Rename "/" "/x"], which returns no error,
    [RemoveAll "/x"] reaches the panic of [unRegisterWithParent]: the parent
    [/] of the entry [/x] is not in the table. *)
Theorem RemoveAll_after_root_rename_panics :
  reachable renamedRoot
  ∧ perform (CallRemoveAll "/x") renamedRoot = Panic "parent of /x is nil"
  ∧ unRegisterWithParent "/x" renamedRoot = Panic "parent of /x is nil".
Proof.
  split; [apply renamedRoot_reachable|]. split; vm_compute; reflexivity.
Qed.

(** * The archive backend denies every mutation *)

(** C9.  Every mutating call on the archive backend ([Create], [Mkdir],
    [MkdirAll], [Remove], [RemoveAll], [Rename], [Chmod], [Chtimes], and
    [OpenFile] with a flag other than read-only) returns [EPERM], whatever
    its arguments, and leaves the backend as it was. *)
Theorem zipfs_denies_mutation (c : zipfs.call) (fs : zipfs.Fs) :
  zipfs.mutating c = true → zipfs.perform c fs = (Some EPERM, fs).
Proof.
  intros H. destruct c; try reflexivity.
  simpl in *. unfold zipfs.OpenFile. by rewrite H.
Qed.

Lemma zipfs_denies_mutation_witness :
  zipfs.perform (zipfs.CallOpenFile "/go/README" O_RDWR 420) zipfs.sample =
    (Some EPERM, zipfs.sample).
Proof.
  apply (zipfs_denies_mutation (zipfs.CallOpenFile "/go/README" O_RDWR 420)).
  reflexivity.
Defined.

(** Reading is not denied: the read-only [OpenFile] finds the archived file. *)
Lemma zipfs_OpenFile_read_only :
  zipfs.OpenFile "/go/README" O_RDONLY 0 zipfs.sample =
    ((Some (zipfs.mkZFile (Some (zipfs.mkZipFile "go/README" false)) false), None),
     zipfs.sample).
Proof. vm_compute. reflexivity. Qed.

(** * Further properties of the code *)

(** ** [normalizePath] *)

(** X1.  [normalizePath] always returns a canonical path, the separator
    followed by proper elements (not empty, not [.], not [..], without
    separator) joined by single separators, and it leaves every canonical
    path as it is; so normalizing twice is normalizing once. *)
Theorem normalizePath_canonical (p : string) :
  (∃ es, Forall properElem es ∧ normalizePath p = canon es)
  ∧ (∀ es, Forall properElem es → normalizePath (canon es) = canon es)
  ∧ normalizePath (normalizePath p) = normalizePath p.
Proof.
  split; [apply normalizePath_canon|].
  split; [apply normalizePath_of_canon|apply normalizePath_idem].
Qed.

Lemma elems_trailing_sep (s : string) :
  filepath.elems (s +:+ "/") = (filepath.elems s ++ [""])%list.
Proof.
  induction s as [|c s IH]; [reflexivity|].
  change (String c s +:+ "/") with (String c (s +:+ "/")).
  simpl filepath.elems. rewrite IH.
  destruct (filepath.IsPathSeparator c); [reflexivity|].
  pose proof (elems_not_nil s). by destruct (filepath.elems s).
Qed.

(** X2.  A leading or a trailing separator makes no difference to
    [normalizePath]: [tmp], [/tmp] and [tmp/] name the same entry. *)
Theorem normalizePath_slashes (p : string) :
  normalizePath ("/" +:+ p) = normalizePath p
  ∧ normalizePath (p +:+ "/") = normalizePath p.
Proof.
  split; [reflexivity|].
  rewrite !normalizePath_unfold. f_equal. unfold filepath.cleanElems. f_equal.
  change (String "/" (p +:+ "/")) with (String "/" p +:+ "/").
  rewrite elems_trailing_sep, fold_left_app. reflexivity.
Qed.

Lemma zipfs_normalizePath_eq (p : string) :
  zipfs.normalizePath p = normalizePath p.
Proof.
  unfold zipfs.normalizePath. destruct p as [|c r]; [reflexivity|].
  destruct (filepath.IsPathSeparator c) eqn:Hc; [|reflexivity].
  apply Ascii.eqb_eq in Hc. unfold filepath.Separator in Hc. subst c. reflexivity.
Qed.

(** X3.  The archive backend and the in-memory backend normalize every path
    to the same canonical path. *)
Theorem zipfs_normalizePath_agrees (p : string) :
  zipfs.normalizePath p = normalizePath p.
Proof. apply zipfs_normalizePath_eq. Qed.

Lemma length_canon_snoc (es : list string) (e : string) :
  e ≠ "" →
  (String.length (canon es) < String.length (canon (es ++ [e])))%nat.
Proof.
  intros He. unfold canon. destruct es as [|x es'].
  - destruct e; [done|]. simpl. lia.
  - rewrite concat_snoc by done. change (String.length ("/" +:+ ?a))
      with (S (String.length a)). rewrite !length_append. simpl. lia.
Qed.

(** X4.  The parent of a normalized path, as [filepath.Dir] gives it, is a
    normalized path again, and it is the path itself at the root only. *)
Theorem Dir_of_normalized (p : string) :
  normalizePath (filepath.Dir (normalizePath p)) = filepath.Dir (normalizePath p)
  ∧ (filepath.Dir (normalizePath p) = normalizePath p
     ↔ normalizePath p = FilePathSeparator).
Proof.
  split; [apply normalizePath_Dir|].
  destruct (normalizePath_canon p) as (es & Hes & ->).
  destruct es as [|e es] using rev_ind; [done|]. clear IHes.
  apply Forall_app in Hes as [Hes He]. inversion He as [|? ? He' _]; subst.
  rewrite Dir_canon_snoc by done. pose proof (length_canon_snoc es e (proj1 He')) as Hlen.
  split; intros E.
  - rewrite E in Hlen. lia.
  - rewrite E in Hlen. destruct es; simpl in Hlen; lia.
Qed.

(** ** Properties a computation keeps *)

Lemma keeps_ret (P : MemMapFs → Prop) {A : Type} (a : A) : keeps P (mret a : M A).
Proof. intros m a' m' HP H. by injection H as _ <-. Qed.

Lemma keeps_panic (P : MemMapFs → Prop) {A : Type} (msg : string) :
  keeps P (panic msg : M A).
Proof. intros m a m' _ H. discriminate H. Qed.

Lemma keeps_bind (P : MemMapFs → Prop) {A B : Type} (c : M A) (f : A → M B) :
  keeps P c → (∀ a, keeps P (f a)) → keeps P (c ≫= f).
Proof.
  intros Hc Hf m b m' HP H. apply bind_inv in H as (a & m1 & H1 & H2).
  eapply Hf; [|exact H2]. eapply Hc; [exact HP|exact H1].
Qed.

Lemma keeps_forEach (P : MemMapFs → Prop) {A : Type} (l : list A) (body : A → M unit) :
  (∀ x, keeps P (body x)) → keeps P (forEach l body).
Proof.
  intros Hb. induction l as [|x l IH]; simpl; [apply keeps_ret|].
  apply keeps_bind; [apply Hb|intros _; exact IH].
Qed.


Lemma keeps_load (P : MemMapFs → Prop) (p : ptr) : keeps P (load p).
Proof.
  intros m a m' HP H. unfold load in H. destruct (heap m !! p); [|discriminate].
  by injection H as _ <-.
Qed.

Lemma keeps_timeNow (P : MemMapFs → Prop) : keeps P timeNow.
Proof. intros m a m' HP H. by injection H as _ <-. Qed.

Lemma keeps_getTable (P : MemMapFs → Prop) : keeps P getTable.
Proof. intros m a m' HP H. by injection H as _ <-. Qed.

Lemma keeps_store (P : MemMapFs → Prop) (p : ptr) (fd : FileData) :
  tableOnly P → keeps P (store p fd).
Proof. intros HT m a m' HP H. injection H as _ <-. by apply (HT m). Qed.

Lemma keeps_alloc (P : MemMapFs → Prop) (fd : FileData) :
  tableOnly P → keeps P (alloc fd).
Proof. intros HT m a m' HP H. injection H as _ <-. by apply (HT m). Qed.

Lemma keysCanonical_tableOnly : tableOnly keysCanonical.
Proof. intros m m' E H k p Hk. rewrite E in Hk. eauto. Qed.

Lemma canonical_root : canonical FilePathSeparator.
Proof. exists []. by split. Qed.

Lemma canonical_normalizePath (p : string) : canonical (normalizePath p).
Proof. apply normalizePath_canon. Qed.

Lemma canonical_Join (a f : string) : canonical a → canonical (filepath.Join a f).
Proof.
  intros (es & Hes & ->). unfold filepath.Join, canon.
  change ("/" +:+ ?x) with (String "/" x). cbv iota beta. simpl String.eqb.
  change (String "/" ?x +:+ ?y) with (String "/" (x +:+ y)).
  rewrite Clean_rooted. eexists. split; [|reflexivity].
  unfold filepath.cleanElems. apply Forall_rev, fold_cleanStep_keeps; [|done].
  apply elems_hasSep.
Qed.

Lemma keysCanonical_afterInit (m : MemMapFs) :
  keysCanonical m → keysCanonical (afterInit m).
Proof.
  intros H. unfold afterInit. destruct (init m); [done|].
  intros k p Hk. simpl in Hk. apply lookup_singleton_Some in Hk as [<- _].
  apply canonical_root.
Qed.

Lemma keeps_getData : keeps keysCanonical getData.
Proof.
  intros m a m' HP H. rewrite getData_run in H. injection H as _ <-.
  by apply keysCanonical_afterInit.
Qed.

Lemma keeps_setEntry (k : string) (v : ptr) :
  canonical k → keeps keysCanonical (setEntry k v).
Proof.
  intros Hk m a m' HP H. unfold setEntry in H.
  rewrite bind_unfold, getData_run in H. injection H as _ <-.
  intros k' p' Hk'. simpl in Hk'.
  apply lookup_insert_Some in Hk' as [[<- _]|[_ Hk']]; [done|].
  by eapply keysCanonical_afterInit.
Qed.

Lemma keeps_deleteEntry (k : string) : keeps keysCanonical (deleteEntry k).
Proof.
  intros m a m' HP H. unfold deleteEntry in H.
  rewrite bind_unfold, getData_run in H. injection H as _ <-.
  intros k' p' Hk'. simpl in Hk'. apply lookup_delete_Some in Hk' as [_ Hk'].
  by eapply keysCanonical_afterInit.
Qed.

Create HintDb keeps.
#[local] Hint Resolve keeps_ret keeps_panic keeps_load keeps_timeNow keeps_getTable
  keeps_getData keeps_deleteEntry keysCanonical_tableOnly canonical_root
  canonical_normalizePath canonical_Join : keeps.
#[local] Hint Extern 1 (keeps _ (store _ _)) =>
  apply keeps_store; apply keysCanonical_tableOnly : keeps.
#[local] Hint Extern 1 (keeps _ (alloc _)) =>
  apply keeps_alloc; apply keysCanonical_tableOnly : keeps.
#[local] Hint Extern 1 (keeps _ (setEntry _ _)) =>
  apply keeps_setEntry; eauto with keeps : keeps.

(** One step of a proof that a method keeps a property: through a bind, a
    branch, or a primitive. *)
Ltac keeps_step :=
  lazymatch goal with
  | |- keeps _ (mbind _ _) => apply keeps_bind; [|intros]
  | |- keeps _ (match ?x with _ => _ end) => destruct x
  | |- keeps _ (forEach _ _) => apply keeps_forEach; intros
  | |- keeps _ (let _ := _ in _) => cbv zeta
  | _ => solve [eauto with keeps]
  end.
Ltac keeps_auto := cbv zeta; repeat keeps_step.

Lemma keeps_mem_CreateFile n : keeps keysCanonical (mem.CreateFile n).
Proof. unfold mem.CreateFile. keeps_auto. Qed.
Lemma keeps_mem_CreateDir n : keeps keysCanonical (mem.CreateDir n).
Proof. unfold mem.CreateDir. keeps_auto. Qed.
Lemma keeps_mem_SetMode f md : keeps keysCanonical (mem.SetMode f md).
Proof. unfold mem.SetMode. keeps_auto. Qed.
Lemma keeps_mem_SetModTime f t : keeps keysCanonical (mem.SetModTime f t).
Proof. unfold mem.SetModTime. keeps_auto. Qed.
Lemma keeps_mem_ChangeFileName f n : keeps keysCanonical (mem.ChangeFileName f n).
Proof. unfold mem.ChangeFileName. keeps_auto. Qed.
Lemma keeps_mem_InitializeDir d : keeps keysCanonical (mem.InitializeDir d).
Proof. unfold mem.InitializeDir. keeps_auto. Qed.
Lemma keeps_mem_AddToMemDir p f : keeps keysCanonical (mem.AddToMemDir p f).
Proof. unfold mem.AddToMemDir. keeps_auto. Qed.
Lemma keeps_mem_RemoveFromMemDir p f : keeps keysCanonical (mem.RemoveFromMemDir p f).
Proof. unfold mem.RemoveFromMemDir. keeps_auto. Qed.
Lemma keeps_mem_ReadMemDir f : keeps keysCanonical (mem.ReadMemDir f).
Proof. unfold mem.ReadMemDir. keeps_auto. Qed.
Lemma keeps_mem_IsDir f : keeps keysCanonical (mem.IsDir f).
Proof. unfold mem.IsDir. keeps_auto. Qed.
Lemma keeps_mem_Mode f : keeps keysCanonical (mem.Mode f).
Proof. unfold mem.Mode. keeps_auto. Qed.
Lemma keeps_mem_Truncate h n : keeps keysCanonical (mem.Truncate h n).
Proof. unfold mem.Truncate. keeps_auto. Qed.
Lemma keeps_mem_SeekEnd h : keeps keysCanonical (mem.SeekEnd h).
Proof. unfold mem.SeekEnd. keeps_auto. Qed.
#[local] Hint Resolve keeps_mem_CreateFile keeps_mem_CreateDir keeps_mem_SetMode
  keeps_mem_SetModTime keeps_mem_ChangeFileName keeps_mem_InitializeDir
  keeps_mem_AddToMemDir keeps_mem_RemoveFromMemDir keeps_mem_ReadMemDir
  keeps_mem_IsDir keeps_mem_Mode keeps_mem_Truncate keeps_mem_SeekEnd : keeps.

Lemma keeps_lockfreeOpen n : keeps keysCanonical (lockfreeOpen n).
Proof. unfold lockfreeOpen. keeps_auto. Qed.
Lemma keeps_Stat n : keeps keysCanonical (Stat n).
Proof. unfold Stat, Open, open. keeps_auto. Qed.
Lemma keeps_openWrite n : keeps keysCanonical (openWrite n).
Proof. unfold openWrite, open. keeps_auto. Qed.
#[local] Hint Resolve keeps_lockfreeOpen keeps_Stat keeps_openWrite : keeps.
Lemma keeps_findParent f : keeps keysCanonical (findParent f).
Proof. unfold findParent. keeps_auto. Qed.
#[local] Hint Resolve keeps_findParent : keeps.
Lemma keeps_unRegisterWithParent n : keeps keysCanonical (unRegisterWithParent n).
Proof. unfold unRegisterWithParent. keeps_auto. Qed.
Lemma keeps_registerWithParent f : keeps keysCanonical (registerWithParent f).
Proof. unfold registerWithParent. keeps_auto. Qed.
Lemma keeps_requireParentDirectory o p : keeps keysCanonical (requireParentDirectory o p).
Proof. unfold requireParentDirectory. keeps_auto. Qed.
Lemma keeps_unrestrictedChmod n md : keeps keysCanonical (unrestrictedChmod n md).
Proof. unfold unrestrictedChmod. keeps_auto. Qed.
Lemma keeps_walkDepth : keeps keysCanonical walkDepth.
Proof. unfold walkDepth. keeps_auto. Qed.
#[local] Hint Resolve keeps_unRegisterWithParent keeps_registerWithParent
  keeps_requireParentDirectory keeps_unrestrictedChmod keeps_walkDepth : keeps.

Lemma keeps_lockFreeRemoveAll depth p : keeps keysCanonical (lockFreeRemoveAll depth p).
Proof.
  revert p. induction depth as [|depth IH]; intros p; [by intros m a m' _ H|].
  simpl. keeps_auto.
Qed.
#[local] Hint Resolve keeps_lockFreeRemoveAll : keeps.

Lemma keeps_lockFreeRename depth o n :
  canonical n → keeps keysCanonical (lockFreeRename depth o n).
Proof.
  revert o n. induction depth as [|depth IH]; intros o n Hn; [by intros m a m' _ H|].
  simpl. keeps_auto.
Qed.

Lemma keeps_Create n : keeps keysCanonical (Create n).
Proof. unfold Create. keeps_auto. Qed.
Lemma keeps_Mkdir n pm : keeps keysCanonical (Mkdir n pm).
Proof. unfold Mkdir. keeps_auto. Qed.
#[local] Hint Resolve keeps_Create keeps_Mkdir : keeps.
Lemma keeps_findMissingDirsFrom steps c acc :
  keeps keysCanonical (findMissingDirsFrom steps c acc).
Proof.
  revert c acc. induction steps as [|steps IH]; intros c acc; [by intros m a m' _ H|].
  simpl. keeps_auto.
Qed.
Lemma keeps_mkdirEach dirs pm : keeps keysCanonical (mkdirEach dirs pm).
Proof. induction dirs as [|d dirs IH]; simpl; keeps_auto. Qed.
#[local] Hint Resolve keeps_findMissingDirsFrom keeps_mkdirEach : keeps.
Lemma keeps_MkdirAll p pm : keeps keysCanonical (MkdirAll p pm).
Proof. unfold MkdirAll, findMissingDirs. keeps_auto. Qed.
Lemma keeps_openFileWith n fl pm f ch : keeps keysCanonical (openFileWith n fl pm f ch).
Proof. unfold openFileWith. keeps_auto. Qed.
#[local] Hint Resolve keeps_openFileWith : keeps.
Lemma keeps_OpenFile n fl pm : keeps keysCanonical (OpenFile n fl pm).
Proof. unfold OpenFile. keeps_auto. Qed.
Lemma keeps_Remove n : keeps keysCanonical (Remove n).
Proof. unfold Remove. keeps_auto. Qed.
Lemma keeps_RemoveAll p : keeps keysCanonical (RemoveAll p).
Proof. unfold RemoveAll. keeps_auto. Qed.
Lemma keeps_Rename o n : keeps keysCanonical (Rename o n).
Proof.
  unfold Rename. keeps_auto. apply keeps_lockFreeRename, canonical_normalizePath.
Qed.
Lemma keeps_Chmod n md : keeps keysCanonical (Chmod n md).
Proof. unfold Chmod. keeps_auto. Qed.
Lemma keeps_Chtimes n a t : keeps keysCanonical (Chtimes n a t).
Proof. unfold Chtimes. keeps_auto. Qed.
#[local] Hint Resolve keeps_MkdirAll keeps_OpenFile keeps_Remove keeps_RemoveAll
  keeps_Rename keeps_Chmod keeps_Chtimes : keeps.

Lemma keeps_perform c : keeps keysCanonical (perform c).
Proof. destruct c; simpl; keeps_auto. Qed.

Lemma keeps_writeThrough h bytes : keeps keysCanonical (writeThrough h bytes).
Proof. unfold writeThrough. keeps_auto. Qed.

(** X5.  Every key of the table of a reachable state is a canonical path:
    whatever paths the calls were given, entries are filed under
    [normalizePath] of them, and the recursive rename files the children
    under cleaned joins. *)
Theorem reachable_keysCanonical (m : MemMapFs) : reachable m → keysCanonical m.
Proof.
  induction 1 as [now|m m' c err _ IH H|m m' h fd bytes err _ IH _ _ H|m now _ IH].
  - intros k p Hk. discriminate Hk.
  - by eapply keeps_perform.
  - by eapply keeps_writeThrough.
  - exact IH.
Qed.

Lemma reachable_keysCanonical_witness : keysCanonical madeAB.
Proof. apply (reachable_keysCanonical madeAB), madeAB_reachable. Defined.

(** ** [getData] and the lookups *)

(** X6.  [getData] returns the table.  On first use it makes the root
    directory, with mode [ModeDir|0755], the only entry of the table and marks
    the filesystem initialized; on every later use it changes nothing. *)
Theorem getData_makes_root_once (m : MemMapFs) :
  ∃ m', getData m = Ret (data m') m'
        ∧ init m' = true
        ∧ (init m = true → m' = m)
        ∧ (init m = false →
           data m' = {[FilePathSeparator := length (heap m)]}
           ∧ heap m' = (heap m ++ [mkFileData "/" [] (Some ∅) true (Z.lor ModeDir 493) (clock m)])%list
           ∧ clock m' = clock m)
        ∧ getData m' = Ret (data m') m'.
Proof.
  exists (afterInit m). split; [apply getData_run|].
  split; [apply afterInit_init|]. split; [apply afterInit_ready|]. split.
  - intros Hi. unfold afterInit. by rewrite Hi.
  - apply getData_ready, afterInit_init.
Qed.

Lemma findMissingDirsFrom_state (steps : nat) (cur : string) (acc : list string)
    (m m' : MemMapFs) (r : list string * option error) :
  init m = true → findMissingDirsFrom steps cur acc m = Ret r m' → m' = m.
Proof.
  intros Hi. revert cur acc. induction steps as [|steps IH]; intros cur acc H;
    [discriminate|]. rewrite findMissingDirsFrom_S in H.
  destruct (String.eqb cur FilePathSeparator); [by injection H as _ <-|].
  rewrite bind_unfold, (Stat_ready _ _ Hi) in H.
  destruct (data m !! normalizePath cur) as [f|].
  - unfold mem.GetFileInfo, mem.IsDir, load in H. rewrite !bind_unfold in H.
    destruct (heap m !! f) as [fd|]; [|discriminate].
    rewrite ret_unfold in H. cbv beta iota in H.
    destruct (dir fd); by injection H as _ <-.
  - change (IsNotExist (PathError "open" (normalizePath cur) ErrFileNotFound))
      with true in H. cbv iota in H. by eapply IH.
Qed.

Lemma findMissingDirsFrom_returns (steps : nat) (cur : string) (acc : list string)
    (m : MemMapFs) (msg : string) :
  init m = true → allocated m → findMissingDirsFrom steps cur acc m ≠ Panic msg.
Proof.
  intros Hi Ha. revert cur acc. induction steps as [|steps IH]; intros cur acc;
    [discriminate|]. rewrite findMissingDirsFrom_S.
  destruct (String.eqb cur FilePathSeparator); [discriminate|].
  rewrite bind_unfold, (Stat_ready _ _ Hi).
  destruct (data m !! normalizePath cur) as [f|] eqn:Hf.
  - destruct (Ha _ _ Hf) as [fd Hfd].
    unfold mem.GetFileInfo, mem.IsDir, load. rewrite !bind_unfold, Hfd.
    rewrite ret_unfold. cbv beta iota. by destruct (dir fd).
  - apply IH.
Qed.

Lemma allocated_withDir : allocated withDir.
Proof.
  intros k p H. unfold withDir in H. simpl in H.
  apply lookup_insert_Some in H as [[_ <-]|[_ H]]; [by eexists|].
  apply lookup_insert_Some in H as [[_ <-]|[_ H]]; [by eexists|].
  apply lookup_singleton_Some in H as [_ <-]. by eexists.
Qed.

Lemma allocated_new (m : MemMapFs) : init m = false → allocated (afterInit m).
Proof.
  intros Hi k p H. unfold afterInit in *. rewrite Hi in *. simpl in *.
  apply lookup_singleton_Some in H as [_ <-].
  rewrite lookup_app_r, Nat.sub_diag by done. by eexists.
Qed.

(** X7.  Looking up changes nothing.  On a filesystem whose table entries all
    point to objects, [Stat], [Open], [requireParentDirectory] and
    [findMissingDirs] return, and they return with the state they were called
    in; on a filesystem not used before that is the state with the root made,
    which [findMissingDirs] on the root path does not even make. *)
Theorem lookups_change_nothing (m : MemMapFs) (path : string) :
  allocated (afterInit m) →
  (∃ r, Stat path m = Ret r (afterInit m))
  ∧ (∃ r, Open path m = Ret r (afterInit m))
  ∧ (∀ op, ∃ r, requireParentDirectory op path m = Ret r (afterInit m))
  ∧ (∃ r, findMissingDirs path m =
            Ret r (if String.eqb (normalizePath path) FilePathSeparator
                   then m else afterInit m)).
Proof.
  intros Ha. pose proof (afterInit_init m) as Hi. repeat split.
  - rewrite Stat_run, (Stat_ready _ _ Hi). by eexists.
  - unfold Open, open. rewrite !bind_unfold, getData_run.
    destruct (data (afterInit m) !! normalizePath path); by eexists.
  - intros op. rewrite requireParentDirectory_run, (requireParentDirectory_ready _ _ _ Hi).
    destruct (data (afterInit m) !! _) as [pp|] eqn:Hpp; [|by eexists].
    destruct (Ha _ _ Hpp) as [pfd ->]. by eexists.
  - unfold findMissingDirs. cbv zeta.
    destruct (String.eqb_spec (normalizePath path) FilePathSeparator) as [E|Hne].
    + rewrite findMissingDirsFrom_S, E. by eexists.
    + rewrite findMissingDirsFrom_afterInit by done.
      destruct (findMissingDirsFrom _ _ _ (afterInit m)) as [r m'|msg|] eqn:H.
      * apply findMissingDirsFrom_state in H as ->; [by eexists|done].
      * by apply findMissingDirsFrom_returns in H.
      * exfalso. revert H. rewrite <- findMissingDirsFrom_afterInit by done.
        apply (findMissingDirs_ends m path).
Qed.

(** On a filesystem not used before, and on one in use. *)
Lemma lookups_change_nothing_witness :
  ((∃ r, Stat "/a/b" (NewMemMapFs 0) = Ret r (rootOnly 0))
   ∧ (∃ r, Open "/a/b" (NewMemMapFs 0) = Ret r (rootOnly 0))
   ∧ (∀ op, ∃ r, requireParentDirectory op "/a/b" (NewMemMapFs 0) = Ret r (rootOnly 0))
   ∧ (∃ r, findMissingDirs "/a/b" (NewMemMapFs 0) = Ret r (rootOnly 0)))
  ∧ ((∃ r, Stat "/d/f" withDir = Ret r withDir)
     ∧ (∃ r, Open "/d/f" withDir = Ret r withDir)
     ∧ (∀ op, ∃ r, requireParentDirectory op "/d/f" withDir = Ret r withDir)
     ∧ (∃ r, findMissingDirs "/d/f" withDir = Ret r withDir)).
Proof.
  split.
  - apply (lookups_change_nothing (NewMemMapFs 0) "/a/b"). by apply allocated_new.
  - apply (lookups_change_nothing withDir "/d/f"). apply allocated_withDir.
Defined.

(** ** Calls on a path that is not in the table *)

Lemma unRegisterWithParent_absent (m : MemMapFs) (path : string) :
  init m = true → data m !! normalizePath path = None →
  unRegisterWithParent path m = Ret (Some ErrFileNotFound) m.
Proof.
  intros Hi Habs. unfold unRegisterWithParent.
  by rewrite bind_unfold, (lockfreeOpen_ready _ _ Hi), Habs.
Qed.

Lemma absent_path_outcomes_ready (m : MemMapFs) (path : string) (mode' atime mtime : Z) :
  init m = true →
  data m !! normalizePath path = None →
  Stat path m = Ret (inr (PathError "open" (normalizePath path) ErrNotExist)) m
  ∧ Chmod path mode' m = Ret (Some (PathError "chmod" (normalizePath path) ErrNotExist)) m
  ∧ Chtimes path atime mtime m =
      Ret (Some (PathError "chtimes" (normalizePath path) ErrNotExist)) m
  ∧ Remove path m = Ret (Some (PathError "remove" (normalizePath path) ErrNotExist)) m
  ∧ RemoveAll path m = Ret None m.
Proof.
  intros Hi Habs. repeat split.
  - by rewrite (Stat_ready _ _ Hi), Habs.
  - unfold Chmod. cbv zeta. by rewrite (bind_Ret _ _ _ _ _ (getData_ready _ Hi)), Habs.
  - unfold Chtimes. cbv zeta. by rewrite (bind_Ret _ _ _ _ _ (getData_ready _ Hi)), Habs.
  - unfold Remove. cbv zeta. by rewrite (bind_Ret _ _ _ _ _ (getData_ready _ Hi)), Habs.
  - unfold RemoveAll. rewrite (bind_Ret _ _ _ _ _ (walkDepth_ready _ Hi)).
    by rewrite bind_unfold, (lockFreeRemoveAll_absent _ _ _ Hi Habs).
Qed.

Lemma Chmod_run (m : MemMapFs) (path : string) (mode' : Z) :
  Chmod path mode' m = Chmod path mode' (afterInit m).
Proof. unfold Chmod. cbv zeta. by rewrite !bind_unfold, !getData_run, afterInit_idem. Qed.

Lemma Chtimes_run (m : MemMapFs) (path : string) (atime mtime : Z) :
  Chtimes path atime mtime m = Chtimes path atime mtime (afterInit m).
Proof. unfold Chtimes. cbv zeta. by rewrite !bind_unfold, !getData_run, afterInit_idem. Qed.

Lemma Remove_run (m : MemMapFs) (path : string) :
  Remove path m = Remove path (afterInit m).
Proof. unfold Remove. cbv zeta. by rewrite !bind_unfold, !getData_run, afterInit_idem. Qed.

Lemma RemoveAll_run (m : MemMapFs) (path : string) :
  RemoveAll path m = RemoveAll path (afterInit m).
Proof.
  unfold RemoveAll, walkDepth. by rewrite !bind_unfold, !getData_run, afterInit_idem.
Qed.

(** X8.  On a path that is not in the table, [Stat], [Chmod], [Chtimes] and
    [Remove] fail with `NotFound`, the error naming the operation and the
    normalized path, and [RemoveAll] returns no error; none of them changes
    the state.  The table is the one the call finds: on a filesystem not used
    before, the one with the root only, which the call makes, and this making
    of the root is then the only change. *)
Theorem absent_path_outcomes (m : MemMapFs) (path : string) (mode' atime mtime : Z) :
  data (afterInit m) !! normalizePath path = None →
  Stat path m = Ret (inr (PathError "open" (normalizePath path) ErrNotExist)) (afterInit m)
  ∧ Chmod path mode' m =
      Ret (Some (PathError "chmod" (normalizePath path) ErrNotExist)) (afterInit m)
  ∧ Chtimes path atime mtime m =
      Ret (Some (PathError "chtimes" (normalizePath path) ErrNotExist)) (afterInit m)
  ∧ Remove path m =
      Ret (Some (PathError "remove" (normalizePath path) ErrNotExist)) (afterInit m)
  ∧ RemoveAll path m = Ret None (afterInit m).
Proof.
  intros Habs. rewrite Stat_run, Chmod_run, Chtimes_run, Remove_run, RemoveAll_run.
  apply absent_path_outcomes_ready; [apply afterInit_init|done].
Qed.

(** On a filesystem not used before, and on one in use. *)
Lemma absent_path_outcomes_witness :
  (Stat "/does/not/exist" (NewMemMapFs 0) =
     Ret (inr (PathError "open" "/does/not/exist" ErrNotExist)) (rootOnly 0)
   ∧ Chmod "/does/not/exist" 420 (NewMemMapFs 0) =
       Ret (Some (PathError "chmod" "/does/not/exist" ErrNotExist)) (rootOnly 0)
   ∧ Chtimes "/does/not/exist" 1 2 (NewMemMapFs 0) =
       Ret (Some (PathError "chtimes" "/does/not/exist" ErrNotExist)) (rootOnly 0)
   ∧ Remove "/does/not/exist" (NewMemMapFs 0) =
       Ret (Some (PathError "remove" "/does/not/exist" ErrNotExist)) (rootOnly 0)
   ∧ RemoveAll "/does/not/exist" (NewMemMapFs 0) = Ret None (rootOnly 0))
  ∧ (Stat "/d/g" withDir = Ret (inr (PathError "open" "/d/g" ErrNotExist)) withDir
     ∧ Chmod "/d/g" 420 withDir = Ret (Some (PathError "chmod" "/d/g" ErrNotExist)) withDir
     ∧ Chtimes "/d/g" 1 2 withDir =
         Ret (Some (PathError "chtimes" "/d/g" ErrNotExist)) withDir
     ∧ Remove "/d/g" withDir = Ret (Some (PathError "remove" "/d/g" ErrNotExist)) withDir
     ∧ RemoveAll "/d/g" withDir = Ret None withDir).
Proof.
  split.
  - apply (absent_path_outcomes (NewMemMapFs 0) "/does/not/exist" 420 1 2); reflexivity.
  - apply (absent_path_outcomes withDir "/d/g" 420 1 2); reflexivity.
Defined.

(** ** [Mkdir] *)

Lemma Mkdir_run (m : MemMapFs) (path : string) (perm : Z) (pp : ptr) (pfd : FileData) :
  init m = true →
  data m !! normalizePath path = None →
  data m !! filepath.Dir (normalizePath path) = Some pp →
  heap m !! pp = Some pfd → dir pfd = true →
  Mkdir path perm m =
    Ret None (afterMkdir m (normalizePath path)
                (Z.lor (Z.land perm chmodBits) ModeDir) pp pfd).
Proof.
  intros Hi Habs Hpar Hpp Hdir. unfold Mkdir. cbv zeta.
  set (name := normalizePath path) in *.
  assert (Hname : normalizePath name = name) by apply normalizePath_idem.
  rewrite (bind_Ret _ _ _ _ _ (getData_ready _ Hi)), Habs.
  rewrite bind_unfold.
  rewrite (requireParentDirectory_found m "mkdir" name pp pfd Hi)
    by (by rewrite ?Hname). rewrite Hdir.
  rewrite bind_unfold, CreateDir_run.
  rewrite bind_unfold, setEntry_ready by done.
  assert (Hlt : (pp < length (heap m))%nat) by (by eapply lookup_lt_Some).
  rewrite bind_unfold.
  rewrite (registerWithParent_run _ (length (heap m)) pp
             (mkFileData name [] (Some ∅) true 0 (clock m)) pfd); try done.
  - rewrite (unrestrictedChmod_found _ name (length (heap m))
               (mkFileData name [] (Some ∅) true 0 (clock m))).
    + unfold afterMkdir, setHeap, withMode, madeDir. simpl. f_equal. f_equal.
      rewrite list_insert_insert_ne by lia.
      rewrite insert_app_r_alt by done. by rewrite Nat.sub_diag.
    + done.
    + simpl. by rewrite Hname, lookup_insert_eq.
    + simpl. rewrite list_lookup_insert_ne by lia.
      by rewrite lookup_app_r, Nat.sub_diag.
  - simpl. by rewrite lookup_app_r, Nat.sub_diag.
  - simpl. unfold name. rewrite normalizePath_Dir. fold name.
    rewrite lookup_insert_ne; [done|]. intros E. rewrite E in Habs. congruence.
  - simpl. by rewrite lookup_app_l.
  - lia.
Qed.

(** X9.  On a path that is not in the table and whose parent is a directory,
    [Mkdir] returns no error and leaves the state with one more object, a
    directory without children whose mode is the permission masked by
    [chmodBits] with [ModeDir] set, entered in the table under the normalized
    path and in the child set of the parent under its last element. *)
Theorem Mkdir_makes_directory (m : MemMapFs) (path : string) (perm : Z)
    (pp : ptr) (pfd : FileData) :
  init m = true →
  data m !! normalizePath path = None →
  data m !! filepath.Dir (normalizePath path) = Some pp →
  heap m !! pp = Some pfd → dir pfd = true →
  Mkdir path perm m =
    Ret None (afterMkdir m (normalizePath path)
                (Z.lor (Z.land perm chmodBits) ModeDir) pp pfd).
Proof. apply Mkdir_run. Qed.

Lemma Mkdir_makes_directory_witness :
  Mkdir "sub/" 4095 (rootOnly 3) =
    Ret None (afterMkdir (rootOnly 3) "/sub" (Z.lor 511 ModeDir) 0%nat (rootDir 3)).
Proof.
  apply (Mkdir_makes_directory (rootOnly 3) "sub/" 4095 0%nat (rootDir 3)); reflexivity.
Defined.

Lemma Mkdir_afterInit (m : MemMapFs) (path : string) (perm : Z) :
  Mkdir path perm m = Mkdir path perm (afterInit m).
Proof.
  unfold Mkdir. cbv zeta. rewrite !bind_unfold, !getData_run.
  by rewrite (afterInit_ready _ (afterInit_init m)).
Qed.

Lemma Mkdir_errors_ready (m : MemMapFs) (path : string) (perm : Z) :
  init m = true →
  match data m !! normalizePath path with
  | Some _ => Mkdir path perm m =
                Ret (Some (PathError "mkdir" (normalizePath path) ErrExist)) m
  | None =>
      match data m !! filepath.Dir (normalizePath path) with
      | None => Mkdir path perm m =
                  Ret (Some (PathError "mkdir" (normalizePath path) ErrNotExist)) m
      | Some pp =>
          ∀ pfd, heap m !! pp = Some pfd → dir pfd = false →
            Mkdir path perm m =
              Ret (Some (PathError "mkdir" (normalizePath path) ErrNotDir)) m
      end
  end.
Proof.
  intros Hi. unfold Mkdir. cbv zeta.
  rewrite (bind_Ret _ _ _ _ _ (getData_ready _ Hi)).
  destruct (data m !! normalizePath path) as [f|] eqn:Hp; [reflexivity|].
  rewrite bind_unfold, (requireParentDirectory_ready _ _ _ Hi), normalizePath_idem.
  destruct (data m !! filepath.Dir (normalizePath path)) as [pp|]; [|reflexivity].
  intros pfd Hpp Hd. by rewrite Hpp, Hd.
Qed.

(** X10.  [Mkdir] fails, changing nothing: with `AlreadyExists` when the path
    is in the table, whatever is there; otherwise with `NotFound` when the
    parent path is not in the table, and with `NotADirectory` when the parent
    is not a directory.  The table is the one the call finds: on a filesystem
    not used before, the one with the root only, which the call makes, and
    this making of the root is then the only change. *)
Theorem Mkdir_errors (m : MemMapFs) (path : string) (perm : Z) :
  match data (afterInit m) !! normalizePath path with
  | Some _ => Mkdir path perm m =
                Ret (Some (PathError "mkdir" (normalizePath path) ErrExist)) (afterInit m)
  | None =>
      match data (afterInit m) !! filepath.Dir (normalizePath path) with
      | None => Mkdir path perm m =
                  Ret (Some (PathError "mkdir" (normalizePath path) ErrNotExist))
                      (afterInit m)
      | Some pp =>
          ∀ pfd, heap (afterInit m) !! pp = Some pfd → dir pfd = false →
            Mkdir path perm m =
              Ret (Some (PathError "mkdir" (normalizePath path) ErrNotDir)) (afterInit m)
      end
  end.
Proof.
  rewrite Mkdir_afterInit. apply Mkdir_errors_ready, afterInit_init.
Qed.

(** On a filesystem not used before: the parent is missing, and the root is
    there already; on one in use: the parent is a file. *)
Lemma Mkdir_errors_witness :
  Mkdir "/x/y" 493 (NewMemMapFs 0) =
    Ret (Some (PathError "mkdir" "/x/y" ErrNotExist)) (rootOnly 0)
  ∧ Mkdir "/" 493 (NewMemMapFs 0) = Ret (Some (PathError "mkdir" "/" ErrExist)) (rootOnly 0)
  ∧ Mkdir "/d/f/g" 493 withDir = Ret (Some (PathError "mkdir" "/d/f/g" ErrNotDir)) withDir.
Proof.
  split; [|split].
  - exact (Mkdir_errors (NewMemMapFs 0) "/x/y" 493).
  - exact (Mkdir_errors (NewMemMapFs 0) "/" 493).
  - exact (Mkdir_errors withDir "/d/f/g" 493
             (mkFileData "/d/f" [] None false createPerm 0) eq_refl eq_refl).
Defined.

(** X11.  [Mkdir] twice: when a call of [Mkdir] returns no error, a second
    call on the same path, with any permission, fails with `AlreadyExists`
    and changes nothing. *)
Theorem Mkdir_twice (m m' : MemMapFs) (path : string) (perm perm' : Z) :
  Mkdir path perm m = Ret None m' →
  Mkdir path perm' m' = Ret (Some (PathError "mkdir" (normalizePath path) ErrExist)) m'.
Proof.
  intros H. rewrite Mkdir_afterInit in H.
  apply Mkdir_inv in H as [Hi' Hd]; [|apply afterInit_init].
  destruct (Hd eq_refl) as (f & fd & Hf & _).
  unfold Mkdir. cbv zeta. by rewrite (bind_Ret _ _ _ _ _ (getData_ready _ Hi')), Hf.
Qed.

Lemma Mkdir_twice_witness :
  Mkdir "/sub" 448 (afterMkdir (rootOnly 3) "/sub" (Z.lor 493 ModeDir) 0%nat (rootDir 3)) =
    Ret (Some (PathError "mkdir" "/sub" ErrExist))
        (afterMkdir (rootOnly 3) "/sub" (Z.lor 493 ModeDir) 0%nat (rootDir 3)).
Proof.
  apply (Mkdir_twice (rootOnly 3) _ "/sub" 493 448). vm_compute. reflexivity.
Defined.

(** ** [MkdirAll] and [findMissingDirs] *)

Lemma canonical_Dir (k : string) : canonical k → canonical (filepath.Dir k).
Proof. intros (es & Hes & ->). by apply Dir_canon. Qed.

Lemma normalizePath_canonical_id (k : string) : canonical k → normalizePath k = k.
Proof. intros (es & Hes & ->). by apply normalizePath_of_canon. Qed.

Lemma findMissingDirsFrom_shape (steps : nat) (cur : string) (acc l : list string)
    (m m' : MemMapFs) :
  init m = true → canonical cur →
  findMissingDirsFrom steps cur acc m = Ret (l, None) m' →
  ∃ more, l = (acc ++ more)%list
    ∧ ancestorChain cur more
    ∧ Forall (λ k, data m !! k = None) more
    ∧ (Nat.iter (length more) filepath.Dir cur = FilePathSeparator
       ∨ dirAt m (Nat.iter (length more) filepath.Dir cur)).
Proof.
  intros Hi. revert cur acc. induction steps as [|steps IH]; intros cur acc Hc H;
    [discriminate|]. rewrite findMissingDirsFrom_S in H.
  destruct (String.eqb_spec cur FilePathSeparator) as [->|Hne].
  { injection H as <- _. exists []. rewrite app_nil_r. repeat split; [done|]. by left. }
  rewrite bind_unfold, (Stat_ready _ _ Hi), (normalizePath_canonical_id _ Hc) in H.
  destruct (data m !! cur) as [f|] eqn:Hcur.
  - unfold mem.GetFileInfo, mem.IsDir, load in H. rewrite !bind_unfold in H.
    destruct (heap m !! f) as [fd|] eqn:Hf; [|discriminate].
    rewrite ret_unfold in H. cbv beta iota in H.
    destruct (dir fd) eqn:Hd; [|discriminate].
    injection H as <- _. exists []. rewrite app_nil_r. repeat split; [done|].
    right. by exists f, fd.
  - change (IsNotExist (PathError "open" cur ErrFileNotFound)) with true in H.
    cbv iota in H.
    apply IH in H as (more & -> & Hchain & Habs & Htop); [|by apply canonical_Dir].
    exists (cur :: more). rewrite <- app_assoc. split; [done|].
    split; [by split|]. split; [by constructor|].
    simpl length. by rewrite Nat.iter_succ_r.
Qed.

(** X12.  What [findMissingDirs] returns when it returns no error: the
    normalized path, its parent, the parent of that and so on, deepest first,
    for as long as they are not in the table; the path above the last of them
    is the root or a directory of the table.  The table is the one the call
    finds: on a filesystem not used before, the one with the root only. *)
Theorem findMissingDirs_lists_missing (m m' : MemMapFs) (path : string)
    (l : list string) :
  findMissingDirs path m = Ret (l, None) m' →
  ancestorChain (normalizePath path) l
  ∧ Forall (λ k, data (afterInit m) !! k = None) l
  ∧ (Nat.iter (length l) filepath.Dir (normalizePath path) = FilePathSeparator
     ∨ dirAt (afterInit m) (Nat.iter (length l) filepath.Dir (normalizePath path))).
Proof.
  intros H. unfold findMissingDirs in H. cbv zeta in H.
  destruct (String.eqb_spec (normalizePath path) FilePathSeparator) as [E|Hne].
  - rewrite findMissingDirsFrom_S, E in H. injection H as <- _. simpl.
    split; [done|]. split; [by apply Forall_nil_2|by left].
  - rewrite findMissingDirsFrom_afterInit in H by done.
    apply findMissingDirsFrom_shape in H as (more & -> & H);
      [done|apply afterInit_init|apply canonical_normalizePath].
Qed.

(** On a filesystem not used before. *)
Lemma findMissingDirs_lists_missing_witness :
  ancestorChain (normalizePath "a/b") ["/a/b"; "/a"]
  ∧ Forall (λ k, data (afterInit (NewMemMapFs 0)) !! k = None) ["/a/b"; "/a"]
  ∧ (Nat.iter (length ["/a/b"; "/a"]) filepath.Dir (normalizePath "a/b") = FilePathSeparator
     ∨ dirAt (afterInit (NewMemMapFs 0))
         (Nat.iter (length ["/a/b"; "/a"]) filepath.Dir (normalizePath "a/b"))).
Proof.
  apply (findMissingDirs_lists_missing (NewMemMapFs 0) (rootOnly 0) "a/b" ["/a/b"; "/a"]).
  reflexivity.
Defined.

(** X13.  The loop of [findMissingDirs] ends: whatever the path and the
    state, it returns (or stops on a panic) within one turn per character of
    the normalized path, and one more. *)
Theorem findMissingDirs_terminates (m : MemMapFs) (path : string) :
  findMissingDirs path m ≠ OutOfFuel.
Proof. apply findMissingDirs_ends. Qed.

(** X14.  After a [MkdirAll] that returned no error, the normalized path is
    the root or a directory of the table. *)
Theorem MkdirAll_makes_directory (m m' : MemMapFs) (path : string) (perm : Z) :
  MkdirAll path perm m = Ret None m' →
  normalizePath path = FilePathSeparator
  ∨ (init m' = true ∧ dirAt m' (normalizePath path)).
Proof.
  intros H.
  destruct (String.eqb_spec (normalizePath path) FilePathSeparator) as [E|Hne];
    [by left|right].
  unfold MkdirAll, findMissingDirs in H. cbv zeta in H.
  rewrite bind_unfold, (findMissingDirsFrom_afterInit _ _ _ _ Hne) in H.
  destruct (findMissingDirsFrom _ _ _ _) as [[l err] m0| |] eqn:Hfind;
    [|discriminate..].
  destruct err as [err|]; [discriminate|].
  apply findMissingDirsFrom_inv in Hfind as [-> Hl]; [|apply afterInit_init].
  destruct Hl as [[-> [?|Hdir]]|(rest & ->)]; [done| |].
  - injection H as <-. rewrite normalizePath_idem in Hdir.
    split; [apply afterInit_init|done].
  - simpl in H.
    apply mkdirEach_last in H as (m1 & Hi1 & Hmk); [|apply afterInit_init].
    apply Mkdir_inv in Hmk as [Hi' Hdir]; [|done].
    split; [done|]. rewrite <- (normalizePath_idem path). by apply Hdir.
Qed.

Lemma MkdirAll_makes_directory_witness :
  normalizePath "/a/b" = FilePathSeparator
  ∨ (init madeAB = true ∧ dirAt madeAB (normalizePath "/a/b")).
Proof.
  apply (MkdirAll_makes_directory (NewMemMapFs 0) madeAB "/a/b" 493).
  vm_compute. reflexivity.
Defined.

(** X15.  [MkdirAll] on a path at which a file is, other than the root path,
    fails with `NotADirectory`, the error naming the operation [mkdirall] and
    that path, and changes nothing. *)
Theorem MkdirAll_on_file (m : MemMapFs) (path : string) (perm : Z)
    (f : ptr) (fd : FileData) :
  init m = true →
  normalizePath path ≠ FilePathSeparator →
  data m !! normalizePath path = Some f → heap m !! f = Some fd → dir fd = false →
  MkdirAll path perm m =
    Ret (Some (PathError "mkdirall" (normalizePath path) ErrNotDir)) m.
Proof.
  intros Hi Hne Hp Hf Hd. unfold MkdirAll, findMissingDirs. cbv zeta.
  rewrite bind_unfold, findMissingDirsFrom_S.
  apply String.eqb_neq in Hne. rewrite Hne.
  rewrite bind_unfold, (Stat_ready _ _ Hi), normalizePath_idem, Hp.
  unfold mem.GetFileInfo. by rewrite bind_unfold, (IsDir_Some _ _ _ Hf), Hd.
Qed.

Lemma MkdirAll_on_file_witness :
  MkdirAll "/d/f" 493 withDir = Ret (Some (PathError "mkdirall" "/d/f" ErrNotDir)) withDir.
Proof.
  apply (MkdirAll_on_file withDir "/d/f" 493 2%nat
           (mkFileData "/d/f" [] None false createPerm 0)); try reflexivity.
  discriminate.
Defined.

(** ** [Create], [Remove] and [RemoveAll] on one entry *)

Lemma Stat_after_Create_ready (m m' : MemMapFs) (path : string) (h : File) :
  init m = true →
  Create path m = Ret (Some h, None) m' →
  readOnly h = false
  ∧ Stat path m' = Ret (inl (fileData h)) m'
  ∧ ∃ fd, heap m' !! fileData h = Some fd ∧ content fd = [] ∧ dir fd = false.
Proof.
  intros Hi H.
  assert (Hpar : ∃ pp pfd, data m !! filepath.Dir (normalizePath path) = Some pp
                           ∧ heap m !! pp = Some pfd ∧ dir pfd = true).
  { unfold Create in H. cbv zeta in H.
    rewrite bind_unfold, (requireParentDirectory_ready _ _ _ Hi), normalizePath_idem in H.
    destruct (data m !! filepath.Dir (normalizePath path)) as [pp|]; [|discriminate].
    destruct (heap m !! pp) as [pfd|] eqn:Hpp; [|discriminate].
    destruct (dir pfd) eqn:Hd; [|discriminate]. by exists pp, pfd. }
  destruct Hpar as (pp & pfd & Hpar & Hpp & Hd).
  assert (Hlt : (pp < length (heap m))%nat) by (by eapply lookup_lt_Some).
  destruct (data m !! normalizePath path) as [p|] eqn:Hp.
  - destruct (heap m !! p) as [fd|] eqn:Hfd.
    + rewrite (Create_existing m path pp p pfd fd) in H by done.
      destruct (dir fd) eqn:Hdf; [discriminate|]. injection H as <- <-.
      split; [done|]. split.
      * rewrite Stat_ready by done. simpl. by rewrite Hp.
      * exists (withContent [] (clock m) fd). simpl.
        rewrite list_lookup_insert_eq by (by eapply lookup_lt_Some). by repeat split.
    + unfold Create in H. cbv zeta in H.
      rewrite bind_unfold in H.
      rewrite (requireParentDirectory_found m "open" _ pp pfd Hi) in H
        by (by rewrite ?normalizePath_idem).
      rewrite Hd, bind_unfold, (Stat_ready _ _ Hi), normalizePath_idem, Hp in H.
      unfold mem.GetFileInfo, mem.IsDir, load in H.
      rewrite !bind_unfold, Hfd in H. discriminate.
  - rewrite (Create_fresh m path pp pfd) in H by done. injection H as <- <-.
    split; [done|]. split.
    + rewrite Stat_ready by done. simpl. by rewrite lookup_insert_eq.
    + exists (createdFile (normalizePath path) (clock m)). simpl.
      rewrite list_lookup_insert_ne by lia.
      by rewrite lookup_app_r, Nat.sub_diag.
Qed.

(** X16.  [Stat] right after [Create]: when [Create] returns a handle and no
    error, on a filesystem in use or on one not used before, the handle is
    writable, and [Stat] on the same path then finds the object the handle is
    open on, a file of length 0. *)
Theorem Stat_after_Create (m m' : MemMapFs) (path : string) (h : File) :
  Create path m = Ret (Some h, None) m' →
  readOnly h = false
  ∧ Stat path m' = Ret (inl (fileData h)) m'
  ∧ ∃ fd, heap m' !! fileData h = Some fd ∧ content fd = [] ∧ dir fd = false.
Proof.
  intros H. rewrite Create_run in H.
  by apply (Stat_after_Create_ready (afterInit m) m' path h (afterInit_init m)).
Qed.

(** On a filesystem not used before. *)
Lemma Stat_after_Create_witness :
  readOnly (mem.NewFileHandle 1) = false
  ∧ Stat "/f" (afterCreate (rootOnly 7) "/f" 0%nat (rootDir 7)) =
      Ret (inl (fileData (mem.NewFileHandle 1)))
          (afterCreate (rootOnly 7) "/f" 0%nat (rootDir 7))
  ∧ ∃ fd, heap (afterCreate (rootOnly 7) "/f" 0%nat (rootDir 7))
            !! fileData (mem.NewFileHandle 1) = Some fd
          ∧ content fd = [] ∧ dir fd = false.
Proof.
  apply (Stat_after_Create (NewMemMapFs 7) _ "/f" (mem.NewFileHandle 1)).
  vm_compute. reflexivity.
Defined.

Lemma Create_needs_parent_directory_ready (m : MemMapFs) (path : string) :
  init m = true →
  match data m !! filepath.Dir (normalizePath path) with
  | None =>
      Create path m =
        Ret (None, Some (PathError "open" (normalizePath path) ErrNotExist)) m
  | Some pp =>
      ∀ pfd, heap m !! pp = Some pfd → dir pfd = false →
        Create path m =
          Ret (None, Some (PathError "open" (normalizePath path) ErrNotDir)) m
  end.
Proof.
  intros Hi. unfold Create. cbv zeta.
  rewrite bind_unfold, (requireParentDirectory_ready _ _ _ Hi), normalizePath_idem.
  destruct (data m !! filepath.Dir (normalizePath path)) as [pp|]; [|reflexivity].
  intros pfd Hpp Hd. by rewrite Hpp, Hd.
Qed.

(** X17.  [Create] needs a parent directory: when the parent path is not in
    the table it fails with `NotFound`, when the parent is not a directory
    with `NotADirectory`; the error names the operation [open] and the
    normalized path, and nothing changes.  The table is the one the call
    finds: on a filesystem not used before, the one with the root only, which
    the call makes, and this making of the root is then the only change. *)
Theorem Create_needs_parent_directory (m : MemMapFs) (path : string) :
  match data (afterInit m) !! filepath.Dir (normalizePath path) with
  | None =>
      Create path m =
        Ret (None, Some (PathError "open" (normalizePath path) ErrNotExist)) (afterInit m)
  | Some pp =>
      ∀ pfd, heap (afterInit m) !! pp = Some pfd → dir pfd = false →
        Create path m =
          Ret (None, Some (PathError "open" (normalizePath path) ErrNotDir)) (afterInit m)
  end.
Proof.
  rewrite Create_run. apply Create_needs_parent_directory_ready, afterInit_init.
Qed.

(** On a filesystem not used before: the parent is missing; on one in use:
    the parent is a file. *)
Lemma Create_needs_parent_directory_witness :
  Create "/x/y" (NewMemMapFs 0) =
    Ret (None, Some (PathError "open" "/x/y" ErrNotExist)) (rootOnly 0)
  ∧ Create "/d/f/g" withDir =
      Ret (None, Some (PathError "open" "/d/f/g" ErrNotDir)) withDir.
Proof.
  split.
  - exact (Create_needs_parent_directory (NewMemMapFs 0) "/x/y").
  - exact (Create_needs_parent_directory withDir "/d/f/g"
             (mkFileData "/d/f" [] None false createPerm 0) eq_refl eq_refl).
Defined.

Lemma withoutChild_None (child : string) (fd : FileData) :
  memDir fd = None → withoutChild child fd = fd.
Proof. destruct fd as [n c md d mo t]. simpl. by intros ->. Qed.

Lemma unRegisterWithParent_run (m : MemMapFs) (path : string) (f pp : ptr)
    (fd pfd : FileData) :
  init m = true →
  data m !! normalizePath path = Some f → heap m !! f = Some fd →
  data m !! normalizePath (filepath.Dir (name fd)) = Some pp →
  heap m !! pp = Some pfd →
  unRegisterWithParent path m =
    Ret None (setHeap (<[pp := withoutChild (mem.baseName fd) pfd]> (heap m)) m).
Proof.
  intros Hi Hp Hf Hpar Hpp. unfold unRegisterWithParent.
  rewrite bind_unfold, (lockfreeOpen_ready _ _ Hi), Hp.
  rewrite bind_unfold, (findParent_ready _ _ _ Hi Hf), Hpar.
  unfold mem.RemoveFromMemDir.
  rewrite bind_unfold, (bind_Ret _ _ _ _ _ (load_Some _ _ _ Hf)).
  rewrite (bind_Ret _ _ _ _ _ (load_Some _ _ _ Hpp)).
  destruct (memDir pfd) as [names|] eqn:Hmd.
  - unfold store, withoutChild. rewrite Hmd. reflexivity.
  - rewrite withoutChild_None by done. rewrite ret_unfold.
    unfold setHeap. rewrite list_insert_id by done. by destruct m.
Qed.

Lemma Remove_leaf_run (m : MemMapFs) (path : string) (f pp : ptr) (fd pfd : FileData) :
  init m = true →
  data m !! normalizePath path = Some f → heap m !! f = Some fd →
  name fd = normalizePath path → leaf fd →
  data m !! filepath.Dir (normalizePath path) = Some pp → heap m !! pp = Some pfd →
  Remove path m = Ret None (afterRemove m (normalizePath path) pp pfd).
Proof.
  intros Hi Hp Hf Hn Hleaf Hpar Hpp. unfold Remove. cbv zeta.
  set (n := normalizePath path) in *.
  assert (Hnn : normalizePath n = n) by apply normalizePath_idem.
  rewrite (bind_Ret _ _ _ _ _ (getData_ready _ Hi)), Hp.
  unfold mem.GetFileInfo. rewrite bind_unfold, (IsDir_Some _ _ _ Hf).
  assert (Hblocked :
    (if dir fd
     then dir0 ← mem.ReadMemDir f;
          match dir0 with
          | inl children => mret (negb (length children =? 0)%nat)
          | inr _ => panic "Directory failed to list entries"
          end
     else mret false) m = Ret false m).
  { unfold leaf in Hleaf. destruct (dir fd); [|reflexivity].
    unfold mem.ReadMemDir.
    rewrite bind_unfold, (bind_Ret _ _ _ _ _ (load_Some _ _ _ Hf)), Hleaf.
    by rewrite ret_unfold, elements_empty. }
  rewrite bind_unfold, Hblocked. cbv iota.
  rewrite bind_unfold.
  rewrite (unRegisterWithParent_run m n f pp fd pfd); try done.
  - rewrite bind_unfold, deleteEntry_ready by done.
    unfold afterRemove, mem.baseName. by rewrite Hn.
  - by rewrite Hnn.
  - rewrite Hn. unfold n. by rewrite normalizePath_Dir.
Qed.

Lemma RemoveAll_leaf_run (m : MemMapFs) (path : string) (f pp : ptr) (fd pfd : FileData) :
  init m = true →
  data m !! normalizePath path = Some f → heap m !! f = Some fd →
  name fd = normalizePath path → leaf fd →
  data m !! filepath.Dir (normalizePath path) = Some pp → heap m !! pp = Some pfd →
  RemoveAll path m = Ret None (afterRemove m (normalizePath path) pp pfd).
Proof.
  intros Hi Hp Hf Hn Hleaf Hpar Hpp. unfold RemoveAll.
  rewrite (bind_Ret _ _ _ _ _ (walkDepth_ready _ Hi)).
  set (n := normalizePath path) in *.
  assert (Hnn : normalizePath n = n) by apply normalizePath_idem.
  rewrite bind_unfold. simpl lockFreeRemoveAll. fold n.
  rewrite bind_unfold, (lockfreeOpen_ready _ _ Hi), Hnn, Hp.
  rewrite bind_unfold.
  rewrite (unRegisterWithParent_run m n f pp fd pfd); try done.
  - assert (Hlook : (<[pp := withoutChild (mem.baseName fd) pfd]> (heap m)) !! f
                    = Some (if decide (pp = f) then withoutChild (mem.baseName fd) pfd else fd)).
    { destruct (decide (pp = f)) as [->|Hne].
      - apply list_lookup_insert_eq. by eapply lookup_lt_Some.
      - by rewrite list_lookup_insert_ne. }
    unfold mem.ReadMemDir. rewrite !bind_unfold. unfold load at 1. simpl heap.
    rewrite Hlook.
    assert (Hmd : memDir (if decide (pp = f) then withoutChild (mem.baseName fd) pfd else fd)
                  = memDir fd).
    { destruct (decide (pp = f)) as [->|Hne]; [|done].
      assert (E : pfd = fd) by congruence. rewrite E.
      unfold leaf in Hleaf. simpl. rewrite Hleaf. destruct (dir fd); [|done].
      simpl. f_equal. apply set_eq. intros y. rewrite elem_of_difference.
      split; [tauto|]. intros Hy. by apply not_elem_of_empty in Hy. }
    rewrite Hmd. unfold leaf in Hleaf. rewrite Hleaf.
    destruct (dir fd).
    + rewrite elements_empty. cbv [mret M_ret forEach]. cbv beta iota.
      rewrite bind_unfold. cbv beta iota.
      rewrite deleteEntry_ready by done. unfold afterRemove, mem.baseName.
      by rewrite Hn.
    + cbv [mret M_ret]. cbv beta iota. rewrite bind_unfold. cbv beta iota.
      rewrite deleteEntry_ready by done.
      unfold afterRemove, mem.baseName. by rewrite Hn.
  - by rewrite Hnn.
  - rewrite Hn. unfold n. by rewrite normalizePath_Dir.
Qed.

(** X18.  [Remove] and [RemoveAll] on a leaf, a file or a directory without
    children, filed under its own name and with its parent in the table: both
    return no error and leave the same state, the entry taken out of the table
    and its last element out of the child set of the parent; nothing else
    changes. *)
Theorem Remove_leaf (m : MemMapFs) (path : string) (f pp : ptr) (fd pfd : FileData) :
  init m = true →
  data m !! normalizePath path = Some f → heap m !! f = Some fd →
  name fd = normalizePath path → leaf fd →
  data m !! filepath.Dir (normalizePath path) = Some pp → heap m !! pp = Some pfd →
  Remove path m = Ret None (afterRemove m (normalizePath path) pp pfd)
  ∧ RemoveAll path m = Ret None (afterRemove m (normalizePath path) pp pfd).
Proof. intros. split; [by eapply Remove_leaf_run|by eapply RemoveAll_leaf_run]. Qed.

Lemma Remove_leaf_witness :
  Remove "/d/f" withDir =
    Ret None (afterRemove withDir "/d/f" 1%nat (mkFileData "/d" [] (Some {["f"]}) true (Z.lor ModeDir 493) 0))
  ∧ RemoveAll "/d/f" withDir =
    Ret None (afterRemove withDir "/d/f" 1%nat (mkFileData "/d" [] (Some {["f"]}) true (Z.lor ModeDir 493) 0)).
Proof.
  apply (Remove_leaf withDir "/d/f" 2%nat 1%nat
           (mkFileData "/d/f" [] None false createPerm 0)); reflexivity.
Defined.

(** X19.  [Remove] on a directory that has children fails with `NotEmpty`
    and changes nothing. *)
Theorem Remove_directory_with_children (m : MemMapFs) (path : string) (f : ptr)
    (fd : FileData) (names : gset string) :
  init m = true →
  data m !! normalizePath path = Some f → heap m !! f = Some fd →
  dir fd = true → memDir fd = Some names → names ≠ ∅ →
  Remove path m = Ret (Some (PathError "remove" (normalizePath path) ErrNotEmpty)) m.
Proof.
  intros Hi Hp Hf Hd Hmd Hne. unfold Remove. cbv zeta.
  rewrite (bind_Ret _ _ _ _ _ (getData_ready _ Hi)), Hp.
  unfold mem.GetFileInfo. rewrite bind_unfold, (IsDir_Some _ _ _ Hf), Hd.
  unfold mem.ReadMemDir.
  rewrite !bind_unfold, (load_Some _ _ _ Hf), Hmd, !ret_unfold.
  destruct (elements names) as [|x l] eqn:E; [|reflexivity].
  apply elements_empty_inv in E. apply leibniz_equiv in E. done.
Qed.

Lemma Remove_directory_with_children_witness :
  Remove "/d" withDir = Ret (Some (PathError "remove" "/d" ErrNotEmpty)) withDir.
Proof.
  apply (Remove_directory_with_children withDir "/d" 1%nat
           (mkFileData "/d" [] (Some {["f"]}) true (Z.lor ModeDir 493) 0) {["f"]});
    try reflexivity.
  intros E. apply (f_equal size) in E. vm_compute in E. discriminate E.
Defined.

(** X20.  [Create] then [Remove]: creating a file at a path that is not in the
    table, under a directory whose child set does not hold its last element,
    and removing it again brings back the table and every object the state
    had; what is left over is the file object, no longer in the table. *)
Theorem Create_then_Remove (m : MemMapFs) (path : string) (pp : ptr) (pfd : FileData)
    (names : gset string) :
  init m = true →
  data m !! normalizePath path = None →
  data m !! filepath.Dir (normalizePath path) = Some pp →
  heap m !! pp = Some pfd → dir pfd = true → memDir pfd = Some names →
  snd (filepath.Split (normalizePath path)) ∉ names →
  (Create path;; Remove path) m =
    Ret None (setHeap (heap m ++ [createdFile (normalizePath path) (clock m)]) m).
Proof.
  intros Hi Habs Hpar Hpp Hd Hmd Hnot.
  assert (Hlt : (pp < length (heap m))%nat) by (by eapply lookup_lt_Some).
  rewrite bind_unfold, (Create_fresh m path pp pfd) by done.
  rewrite (Remove_leaf_run _ path (length (heap m)) pp
             (createdFile (normalizePath path) (clock m)) (withChild (snd (filepath.Split (normalizePath path))) pfd)).
  - unfold afterRemove, afterCreate, setHeap. cbn [heap data init clock].
    f_equal. f_equal.
    + rewrite list_insert_insert_eq.
      assert (E : withoutChild (snd (filepath.Split (normalizePath path)))
                    (withChild (snd (filepath.Split (normalizePath path))) pfd) = pfd).
      { destruct pfd as [pn pc pmd pdr pmo pt]. simpl in *. subst pdr pmd.
        unfold withoutChild, withChild. simpl. do 2 f_equal.
        apply set_eq. intros y. rewrite elem_of_difference, elem_of_union,
          !elem_of_singleton. split; [intros [[?|?] ?]; done|].
        intros Hy. split; [by right|]. intros ->. done. }
      rewrite E. apply list_insert_id. by rewrite lookup_app_l.
    + by rewrite delete_insert_id.
  - done.
  - simpl. by rewrite lookup_insert_eq.
  - simpl. rewrite list_lookup_insert_ne by lia. by rewrite lookup_app_r, Nat.sub_diag.
  - reflexivity.
  - reflexivity.
  - simpl. rewrite lookup_insert_ne; [done|]. intros E. rewrite E in Habs. congruence.
  - simpl. apply list_lookup_insert_eq. rewrite length_app. lia.
Qed.

Lemma Create_then_Remove_witness :
  (Create "/tmp.txt";; Remove "/tmp.txt") (rootOnly 5) =
    Ret None (setHeap (heap (rootOnly 5) ++ [createdFile "/tmp.txt" 5]) (rootOnly 5)).
Proof.
  apply (Create_then_Remove (rootOnly 5) "/tmp.txt" 0%nat (rootDir 5) ∅);
    try reflexivity.
  apply not_elem_of_empty.
Defined.

(** ** [Rename] *)

Lemma prefix_append (a b : string) : String.prefix a (a +:+ b) = true.
Proof.
  induction a as [|c a IH]; [by destruct b|].
  change (String c a +:+ b) with (String c (a +:+ b)). simpl.
  destruct (ascii_dec c c); [exact IH|done].
Qed.

(** X21.  [Rename] refuses to move a path into itself: when the normalized
    new path is the normalized old path followed by a separator and more, it
    fails with `InvalidArgument` naming the new path, whether or not the old
    path exists, and changes nothing. *)
Theorem Rename_into_own_subtree (m : MemMapFs) (old new sub : string) :
  normalizePath new = normalizePath old +:+ "/" +:+ sub →
  Rename old new m = Ret (Some (PathError "rename" (normalizePath new) ErrInvalid)) m.
Proof.
  intros E. apply Rename_inside.
  - intros E'. rewrite <- E' in E. apply (f_equal String.length) in E.
    rewrite !length_append in E. simpl in E. lia.
  - unfold strings.HasPrefix. rewrite E, <- append_assoc. apply prefix_append.
Qed.

Lemma Rename_into_own_subtree_witness :
  Rename "/a" "/a/b" (rootOnly 0) =
    Ret (Some (PathError "rename" "/a/b" ErrInvalid)) (rootOnly 0).
Proof. apply (Rename_into_own_subtree (rootOnly 0) "/a" "/a/b" "b"). reflexivity. Defined.

Lemma ReadMemDir_file (m : MemMapFs) (f : ptr) (fd : FileData) :
  heap m !! f = Some fd → memDir fd = None →
  mem.ReadMemDir f m = Ret (inr ErrNotDir) m.
Proof.
  intros Hf Hmd. unfold mem.ReadMemDir.
  by rewrite (bind_Ret _ _ _ _ _ (load_Some _ _ _ Hf)), Hmd.
Qed.

Lemma ChangeFileName_Some (m : MemMapFs) (f : ptr) (fd : FileData) (n : string) :
  heap m !! f = Some fd →
  mem.ChangeFileName f n m = Ret tt (setHeap (<[f := renamed n fd]> (heap m)) m).
Proof.
  intros H. unfold mem.ChangeFileName.
  by rewrite (bind_Ret _ _ _ _ _ (load_Some _ _ _ H)).
Qed.

Lemma Rename_file_run (m : MemMapFs) (old new : string) (f op np : ptr)
    (fd opd npd : FileData) :
  init m = true →
  normalizePath old ≠ normalizePath new →
  strings.HasPrefix (normalizePath new) (normalizePath old +:+ "/") = false →
  data m !! normalizePath old = Some f → heap m !! f = Some fd →
  name fd = normalizePath old → memDir fd = None →
  data m !! normalizePath new = None →
  data m !! filepath.Dir (normalizePath old) = Some op → heap m !! op = Some opd →
  dir opd = true → f ≠ op →
  data m !! filepath.Dir (normalizePath new) = Some np → heap m !! np = Some npd →
  dir npd = true → f ≠ np →
  Rename old new m =
    Ret None (afterRenameFile m (normalizePath old) (normalizePath new) f fd op opd np npd).
Proof.
  intros Hi Hne Hpre Ho Hf Hname Hmd Hn Hop Hopd Hod Hfop Hnp Hnpd Hnd Hfnp.
  unfold Rename. cbv zeta.
  set (o := normalizePath old) in *. set (n := normalizePath new) in *.
  assert (Hoo : normalizePath o = o) by apply normalizePath_idem.
  assert (Hnn : normalizePath n = n) by apply normalizePath_idem.
  assert (HDo : normalizePath (filepath.Dir o) = filepath.Dir o) by apply normalizePath_Dir.
  assert (HDn : normalizePath (filepath.Dir n) = filepath.Dir n) by apply normalizePath_Dir.
  pose proof Hne as Hne'. apply String.eqb_neq in Hne'. rewrite Hne'.
  unfold FilePathSeparator. rewrite Hpre.
  rewrite (bind_Ret _ _ _ _ _ (getData_ready _ Hi)), Ho.
  rewrite (bind_Ret _ _ _ _ _ (getData_ready _ Hi)), Hnp.
  rewrite (bind_Ret _ _ _ _ _ (walkDepth_ready _ Hi)).
  rewrite bind_unfold, (lockFreeRemoveAll_absent _ _ _ Hi) by (by rewrite Hnn).
  rewrite bind_unfold. simpl lockFreeRename.
  rewrite (bind_Ret _ _ _ _ _ (getData_ready _ Hi)), Ho.
  rewrite bind_unfold, setEntry_ready by done.
  set (m1 := setTable (<[n := f]> (data m)) m).
  assert (Hi1 : init m1 = true) by done.
  rewrite bind_unfold, (ReadMemDir_file m1 f fd) by done.
  change (IsNotDir ErrNotDir) with true. cbv iota. simpl negb. cbv iota.
  rewrite bind_unfold, ret_unfold.
  assert (HDon : filepath.Dir o ≠ n) by (intros E; rewrite E in Hop; congruence).
  assert (HDnn : filepath.Dir n ≠ n) by (intros E; rewrite E in Hnp; congruence).
  rewrite bind_unfold.
  rewrite (unRegisterWithParent_run m1 o f op fd opd); try done.
  2:{ simpl. rewrite Hoo. by rewrite lookup_insert_ne. }
  2:{ simpl. rewrite Hname, HDo. by rewrite lookup_insert_ne. }
  set (m2 := setHeap _ m1).
  assert (Hf2 : heap m2 !! f = Some fd) by (simpl; by rewrite list_lookup_insert_ne).
  rewrite bind_unfold, (ChangeFileName_Some m2 f fd n Hf2).
  set (m3 := setHeap _ m2).
  assert (Hlen : ∀ q x, heap m !! q = Some x → (q < length (heap m))%nat)
    by (intros; by eapply lookup_lt_Some).
  assert (Hf3 : heap m3 !! f = Some (renamed n fd)).
  { simpl. apply list_lookup_insert_eq. rewrite length_insert. eauto. }
  assert (Hnp3 : ∃ X, heap m3 !! np = Some X ∧ dir X = true).
  { simpl. rewrite list_lookup_insert_ne by done.
    destruct (decide (op = np)) as [->|Hd].
    - eexists. rewrite list_lookup_insert_eq by eauto. split; [done|].
      simpl. congruence.
    - exists npd. by rewrite list_lookup_insert_ne. }
  destruct Hnp3 as (X & HX & HXd).
  rewrite bind_unfold.
  assert (Hreg := registerWithParent_run m3 f np (renamed n fd) X Hi1 Hf3).
  unfold registerWithParent in Hreg. rewrite Hreg; try done.
  2:{ simpl. rewrite HDn. by rewrite lookup_insert_ne. }
  simpl forEach. rewrite bind_unfold, ret_unfold.
  rewrite deleteEntry_ready by done.
  unfold afterRenameFile. cbv zeta. simpl in HX. unfold mem.baseName in *.
  rewrite Hname in HX. rewrite HX. subst m3 m2 m1. simpl. by rewrite Hname.
Qed.

(** X22.  [Rename] of a file to a path that is not in the table, both parents
    being directories of the table: it returns no error; the object keeps its
    address, content, mode and time and takes the new name; the table loses
    the old key and gains the new one; the old parent's child set loses the
    last element of the old path and the new parent's gains that of the new
    path; nothing else changes. *)
Theorem Rename_file (m : MemMapFs) (old new : string) (f op np : ptr)
    (fd opd npd : FileData) :
  init m = true →
  normalizePath old ≠ normalizePath new →
  strings.HasPrefix (normalizePath new) (normalizePath old +:+ "/") = false →
  data m !! normalizePath old = Some f → heap m !! f = Some fd →
  name fd = normalizePath old → memDir fd = None →
  data m !! normalizePath new = None →
  data m !! filepath.Dir (normalizePath old) = Some op → heap m !! op = Some opd →
  dir opd = true → f ≠ op →
  data m !! filepath.Dir (normalizePath new) = Some np → heap m !! np = Some npd →
  dir npd = true → f ≠ np →
  Rename old new m =
    Ret None (afterRenameFile m (normalizePath old) (normalizePath new) f fd op opd np npd).
Proof. apply Rename_file_run. Qed.

Lemma Rename_file_witness :
  Rename "/d/f" "/g" withDir =
    Ret None (afterRenameFile withDir "/d/f" "/g" 2%nat
                (mkFileData "/d/f" [] None false createPerm 0)
                1%nat (mkFileData "/d" [] (Some {["f"]}) true (Z.lor ModeDir 493) 0)
                0%nat (mkFileData "/" [] (Some {["d"]}) true (Z.lor ModeDir 493) 0)).
Proof.
  apply (Rename_file withDir "/d/f" "/g" 2%nat 1%nat 0%nat);
    try reflexivity; discriminate.
Defined.

(** ** [OpenFile] *)

Lemma openWrite_ready (m : MemMapFs) (name : string) :
  init m = true →
  openWrite name m =
    Ret (match data m !! normalizePath name with
         | Some f => inl (mem.NewFileHandle f)
         | None => inr (PathError "open" (normalizePath name) ErrFileNotFound)
         end) m.
Proof.
  intros Hi. unfold openWrite, open. rewrite !bind_unfold, (getData_ready _ Hi).
  by destruct (data m !! normalizePath name).
Qed.

Lemma OpenFile_errors_ready (m : MemMapFs) (name : string) (flag perm : Z) :
  init m = true →
  match data m !! normalizePath name with
  | Some _ =>
      (0 <? Z.land flag O_EXCL) = true →
      OpenFile name flag perm m = Ret (None, Some (PathError "open" name ErrExist)) m
  | None =>
      (0 <? Z.land flag O_CREATE) = false →
      OpenFile name flag perm m =
        Ret (None, Some (PathError "open" (normalizePath name) ErrNotExist)) m
  end.
Proof.
  intros Hi. unfold OpenFile. cbv zeta. rewrite bind_unfold, (openWrite_ready _ _ Hi).
  destruct (data m !! normalizePath name) as [f|]; intros ->; reflexivity.
Qed.

Lemma OpenFile_run (m : MemMapFs) (name : string) (flag perm : Z) :
  OpenFile name flag perm m = OpenFile name flag perm (afterInit m).
Proof.
  unfold OpenFile, openWrite, open. cbv zeta.
  by rewrite !bind_unfold, !getData_run, afterInit_idem.
Qed.

(** X23.  [OpenFile] fails, changing nothing: on a path that is in the table,
    when the flag has [O_EXCL], with `AlreadyExists` (the error carries the
    name as it was given, not normalized); on a path that is not in the
    table, when the flag lacks [O_CREATE], with `NotFound` (the error carries
    the normalized path).  The table is the one the call finds: on a
    filesystem not used before, the one with the root only, which the call
    makes, and this making of the root is then the only change. *)
Theorem OpenFile_errors (m : MemMapFs) (name : string) (flag perm : Z) :
  match data (afterInit m) !! normalizePath name with
  | Some _ =>
      (0 <? Z.land flag O_EXCL) = true →
      OpenFile name flag perm m =
        Ret (None, Some (PathError "open" name ErrExist)) (afterInit m)
  | None =>
      (0 <? Z.land flag O_CREATE) = false →
      OpenFile name flag perm m =
        Ret (None, Some (PathError "open" (normalizePath name) ErrNotExist)) (afterInit m)
  end.
Proof.
  rewrite OpenFile_run. apply OpenFile_errors_ready, afterInit_init.
Qed.

(** On a filesystem in use: the file is there; on one not used before: it is
    not. *)
Lemma OpenFile_errors_witness :
  OpenFile "d//f" (Z.lor O_CREATE O_EXCL) 420 withDir =
    Ret (None, Some (PathError "open" "d//f" ErrExist)) withDir
  ∧ OpenFile "gone/" O_RDWR 420 (NewMemMapFs 0) =
      Ret (None, Some (PathError "open" "/gone" ErrNotExist)) (rootOnly 0).
Proof.
  split.
  - exact (OpenFile_errors withDir "d//f" (Z.lor O_CREATE O_EXCL) 420 eq_refl).
  - exact (OpenFile_errors (NewMemMapFs 0) "gone/" O_RDWR 420 eq_refl).
Defined.

(** X24.  [OpenFile] with the flag [O_RDONLY] on a path that is in the table
    returns a read-only handle on the object filed there, at offset 0, and no
    error, and changes nothing. *)
Theorem OpenFile_read_only (m : MemMapFs) (name : string) (perm : Z) (f : ptr) :
  init m = true →
  data m !! normalizePath name = Some f →
  OpenFile name O_RDONLY perm m = Ret (Some (mem.NewReadOnlyFileHandle f), None) m.
Proof.
  intros Hi Hf. unfold OpenFile. cbv zeta.
  by rewrite bind_unfold, (openWrite_ready _ _ Hi), Hf.
Qed.

Lemma OpenFile_read_only_witness :
  OpenFile "/d/f" O_RDONLY 0 withDir =
    Ret (Some (mem.NewReadOnlyFileHandle 2), None) withDir.
Proof. apply (OpenFile_read_only withDir "/d/f" 0 2%nat); reflexivity. Defined.

Lemma land_O_CREATE_not_RDONLY (flag : Z) :
  (0 <? Z.land flag O_CREATE) = true → (flag =? O_RDONLY) = false.
Proof.
  intros H. apply Z.eqb_neq. intros ->. discriminate H.
Qed.

(** X25.  [OpenFile] with [O_CREATE] on a path that is not in the table and
    whose parent is a directory: whatever the other flag bits, it returns a
    writable handle at offset 0 on a new empty file and no error; the state is
    the one [Create] leaves, but for the mode of the new file, which is the
    permission masked by [chmodBits] (not 0666). *)
Theorem OpenFile_creates (m : MemMapFs) (name : string) (flag perm : Z)
    (pp : ptr) (pfd : FileData) :
  init m = true →
  (0 <? Z.land flag O_CREATE) = true →
  data m !! normalizePath name = None →
  data m !! filepath.Dir (normalizePath name) = Some pp →
  heap m !! pp = Some pfd → dir pfd = true →
  OpenFile name flag perm m =
    Ret (Some (mem.NewFileHandle (length (heap m))), None)
        (setHeap (<[length (heap m) :=
                     withMode (Z.land perm chmodBits)
                       (createdFile (normalizePath name) (clock m))]>
                    (heap (afterCreate m (normalizePath name) pp pfd)))
                 (afterCreate m (normalizePath name) pp pfd)).
Proof.
  intros Hi Hcr Habs Hpar Hpp Hd. unfold OpenFile. cbv zeta.
  rewrite bind_unfold, (openWrite_ready _ _ Hi), Habs.
  change (IsNotExist (PathError "open" (normalizePath name) ErrFileNotFound)) with true.
  rewrite Hcr. change (true && true) with true. cbv iota.
  rewrite bind_unfold, (Create_fresh m name pp pfd) by done.
  cbv iota beta.
  assert (Hlt : (pp < length (heap m))%nat) by (by eapply lookup_lt_Some).
  set (m1 := afterCreate m (normalizePath name) pp pfd).
  assert (Hi1 : init m1 = true) by done.
  assert (Hnew : heap m1 !! length (heap m)
                 = Some (createdFile (normalizePath name) (clock m))).
  { simpl. rewrite list_lookup_insert_ne by lia.
    by rewrite lookup_app_r, Nat.sub_diag. }
  assert (Hkey : data m1 !! normalizePath name = Some (length (heap m)))
    by (simpl; by rewrite lookup_insert_eq).
  unfold openFileWith. rewrite (land_O_CREATE_not_RDONLY _ Hcr).
  assert (Hseek :
    (if 0 <? Z.land flag O_APPEND
     then mem.SeekEnd (mem.NewFileHandle (length (heap m)))
     else mret (mem.NewFileHandle (length (heap m)))) m1
    = Ret (mem.NewFileHandle (length (heap m))) m1).
  { destruct (0 <? Z.land flag O_APPEND); [|reflexivity].
    unfold mem.SeekEnd. by rewrite (bind_Ret _ _ _ _ _ (load_Some _ _ _ Hnew)). }
  rewrite bind_unfold, Hseek.
  assert (Htrunc :
    (if (0 <? Z.land flag O_TRUNC) && (0 <? Z.land flag (Z.lor O_RDWR O_WRONLY))
     then mem.Truncate (mem.NewFileHandle (length (heap m))) 0
     else mret None) m1 = Ret None m1).
  { destruct (_ && _); [|reflexivity].
    unfold mem.Truncate. simpl fileData. simpl readOnly.
    rewrite (bind_Ret _ _ _ _ _ (load_Some _ _ _ Hnew)). cbv iota.
    unfold timeNow, store. rewrite !bind_unfold. cbv beta iota.
    rewrite ret_unfold. f_equal. unfold setHeap.
    rewrite list_insert_id; [by destruct m|]. exact Hnew. }
  rewrite bind_unfold, Htrunc. cbv iota.
  rewrite bind_unfold.
  by rewrite (unrestrictedChmod_found m1 name (length (heap m))
               (createdFile (normalizePath name) (clock m))).
Qed.

Lemma OpenFile_creates_witness :
  OpenFile "/new" (Z.lor (Z.lor O_CREATE O_RDWR) O_TRUNC) 4095 (rootOnly 2) =
    Ret (Some (mem.NewFileHandle 1), None)
        (setHeap (<[1%nat := withMode (Z.land 4095 chmodBits) (createdFile "/new" 2)]>
                    (heap (afterCreate (rootOnly 2) "/new" 0%nat (rootDir 2))))
                 (afterCreate (rootOnly 2) "/new" 0%nat (rootDir 2))).
Proof.
  apply (OpenFile_creates (rootOnly 2) "/new" (Z.lor (Z.lor O_CREATE O_RDWR) O_TRUNC)
           4095 0%nat (rootDir 2)); reflexivity.
Defined.

(** * The archive backend: its table and its lookups *)

Lemma zipfs_extends_refl (fls : gmap string (gmap string zipfs.ZipFile)) :
  zipfs.extends fls fls.
Proof. intros d es H. by exists es. Qed.

Lemma zipfs_extends_trans (a b c : gmap string (gmap string zipfs.ZipFile)) :
  zipfs.extends a b → zipfs.extends b c → zipfs.extends a c.
Proof.
  intros Hab Hbc d es H. destruct (Hab d es H) as (es1 & H1 & S1).
  destruct (Hbc d es1 H1) as (es2 & H2 & S2). exists es2. split; [done|].
  by transitivity es1.
Qed.

Lemma zipfs_extends_insert_new (fls : gmap string (gmap string zipfs.ZipFile))
    (d : string) (es : gmap string zipfs.ZipFile) :
  fls !! d = None → zipfs.extends fls (<[d := es]> fls).
Proof.
  intros Hd d' es' H. exists es'. split; [|done].
  rewrite lookup_insert_ne; [done|]. intros ->. congruence.
Qed.

Lemma ensureDir_extends (fls : gmap string (gmap string zipfs.ZipFile))
    (parent dir : string) :
  zipfs.extends fls (fst (zipfs.ensureDir (fls, parent) dir)).
Proof.
  unfold zipfs.ensureDir.
  set (base := snd (zipfs.splitpath dir)).
  set (fls1 := match default ∅ (fls !! parent) !! base with
               | Some _ => fls
               | None => <[parent := <[base := zipfs.mkZipFile (dir +:+ "/") false]>
                                      (default ∅ (fls !! parent))]> fls
               end).
  assert (H1 : zipfs.extends fls fls1).
  { unfold fls1. destruct (default ∅ (fls !! parent) !! base) eqn:Hb;
      [apply zipfs_extends_refl|].
    intros d es H. destruct (decide (d = parent)) as [->|Hne].
    - rewrite H in *. simpl in *. eexists. rewrite lookup_insert_eq. split; [done|].
      by apply insert_subseteq.
    - exists es. by rewrite lookup_insert_ne. }
  change (zipfs.extends fls
            (fst (match fls1 !! dir with Some _ => fls1 | None => <[dir := ∅]> fls1 end, dir))).
  simpl. destruct (fls1 !! dir) eqn:Hd; [done|].
  eapply zipfs_extends_trans; [exact H1|]. by apply zipfs_extends_insert_new.
Qed.

Lemma ensureDir_snd (st : gmap string (gmap string zipfs.ZipFile) * string) (dir : string) :
  snd (zipfs.ensureDir st dir) = dir.
Proof. destruct st as [fls parent]. reflexivity. Qed.

Lemma ensureDir_key (st : gmap string (gmap string zipfs.ZipFile) * string) (dir : string) :
  is_Some (fst (zipfs.ensureDir st dir) !! dir).
Proof.
  destruct st as [fls parent]. unfold zipfs.ensureDir.
  set (fls1 := match default ∅ (fls !! parent) !! _ with Some _ => fls | None => _ end).
  change (is_Some (fst (match fls1 !! dir with Some _ => fls1 | None => <[dir := ∅]> fls1 end, dir)
                     !! dir)).
  simpl. destruct (fls1 !! dir) eqn:Hd; [by rewrite Hd|]. by rewrite lookup_insert_eq.
Qed.

Lemma fold_ensureDir_extends (dirs : list string)
    (st : gmap string (gmap string zipfs.ZipFile) * string) :
  zipfs.extends (fst st) (fst (fold_left zipfs.ensureDir dirs st)).
Proof.
  revert st. induction dirs as [|d dirs IH]; intros st; [apply zipfs_extends_refl|].
  simpl. eapply zipfs_extends_trans; [|apply IH].
  destruct st as [fls parent]. apply ensureDir_extends.
Qed.

Lemma mkdirAll_extends (path : string) (fs : zipfs.Fs) :
  zipfs.extends (zipfs.files fs) (zipfs.files (zipfs.mkdirAll path fs)).
Proof.
  unfold zipfs.mkdirAll. cbv zeta. simpl zipfs.files.
  eapply zipfs_extends_trans; [|apply fold_ensureDir_extends]. simpl.
  destruct (zipfs.files fs !! "/") eqn:Hr; [apply zipfs_extends_refl|].
  by apply zipfs_extends_insert_new.
Qed.

Lemma zipfs_extends_is_Some (a b : gmap string (gmap string zipfs.ZipFile)) (d : string) :
  zipfs.extends a b → is_Some (a !! d) → is_Some (b !! d).
Proof. intros H [es Hd]. destruct (H d es Hd) as (es' & H' & _). by exists es'. Qed.

(** X26.  [mkdirAll] of the archive backend only adds: every entry of every
    directory listing is still there afterwards, unchanged; and afterwards
    the root and the normalized path both have a listing. *)
Theorem zipfs_mkdirAll_ensures (path : string) (fs : zipfs.Fs) :
  zipfs.extends (zipfs.files fs) (zipfs.files (zipfs.mkdirAll path fs))
  ∧ is_Some (zipfs.files (zipfs.mkdirAll path fs) !! "/")
  ∧ is_Some (zipfs.files (zipfs.mkdirAll path fs) !! zipfs.normalizePath path).
Proof.
  split; [apply mkdirAll_extends|].
  unfold zipfs.mkdirAll. cbv zeta. simpl zipfs.files.
  set (fls0 := match zipfs.files fs !! "/" with
               | Some _ => zipfs.files fs
               | None => <["/" := ∅]> (zipfs.files fs)
               end).
  assert (Hroot0 : is_Some (fls0 !! "/")).
  { unfold fls0. destruct (zipfs.files fs !! "/") eqn:Hr; [by rewrite Hr|].
    by rewrite lookup_insert_eq. }
  assert (Hroot : ∀ dirs, is_Some (fst (fold_left zipfs.ensureDir dirs (fls0, "/")) !! "/")).
  { intros dirs. eapply zipfs_extends_is_Some; [|exact Hroot0].
    apply (fold_ensureDir_extends dirs (fls0, "/")). }
  split; [apply Hroot|].
  change (zipfs.ancestors (S ?n) ?d)
    with (if String.eqb d "/" then [] else d :: zipfs.ancestors n (fst (zipfs.splitpath d))).
  destruct (String.eqb_spec (zipfs.normalizePath path) "/") as [->|Hne]; [apply Hroot|].
  simpl rev. rewrite fold_left_app. simpl fold_left. apply ensureDir_key.
Qed.

Lemma addFile_lookup (fs : zipfs.Fs) (file : zipfs.ZipFile) :
  zipfs.zIsDir file = false →
  ∃ es, zipfs.files (zipfs.addFile fs file) !! fst (zipfs.splitpath (zipfs.zName file)) = Some es
        ∧ es !! snd (zipfs.splitpath (zipfs.zName file)) = Some file.
Proof.
  intros Hd. unfold zipfs.addFile. rewrite Hd.
  destruct (zipfs.splitpath (zipfs.zName file)) as [d f]. cbv zeta.
  cbn [zipfs.files fst snd].
  eexists. rewrite lookup_insert_eq. split; [done|]. by rewrite lookup_insert_eq.
Qed.

Lemma addFile_preserves (fs : zipfs.Fs) (x : zipfs.ZipFile) (d f : string)
    (es : gmap string zipfs.ZipFile) (z : zipfs.ZipFile) :
  zipfs.zIsDir x = true ∨ zipfs.splitpath (zipfs.zName x) ≠ (d, f) →
  zipfs.files fs !! d = Some es → es !! f = Some z →
  ∃ es', zipfs.files (zipfs.addFile fs x) !! d = Some es' ∧ es' !! f = Some z.
Proof.
  intros Hx Hd Hf. unfold zipfs.addFile.
  destruct (zipfs.zIsDir x) eqn:Hdir.
  - destruct (mkdirAll_extends (zipfs.zName x) fs d es Hd) as (es' & H' & Hsub).
    exists es'. split; [done|]. by eapply lookup_weaken.
  - destruct Hx as [?|Hx]; [done|].
    destruct (zipfs.splitpath (zipfs.zName x)) as [d' f'] eqn:Hs. cbv zeta.
    cbn [zipfs.files].
    destruct (mkdirAll_extends d' fs d es Hd) as (es' & H' & Hsub).
    destruct (decide (d' = d)) as [->|Hne].
    + rewrite lookup_insert_eq. eexists. split; [done|]. rewrite H'. simpl.
      rewrite lookup_insert_ne by congruence. by eapply lookup_weaken.
    + rewrite lookup_insert_ne by done. exists es'. split; [done|].
      by eapply lookup_weaken.
Qed.

Lemma fold_addFile_preserves (l : list zipfs.ZipFile) (fs : zipfs.Fs) (d f : string)
    (es : gmap string zipfs.ZipFile) (z : zipfs.ZipFile) :
  Forall (λ x, zipfs.zIsDir x = true ∨ zipfs.splitpath (zipfs.zName x) ≠ (d, f)) l →
  zipfs.files fs !! d = Some es → es !! f = Some z →
  ∃ es', zipfs.files (fold_left zipfs.addFile l fs) !! d = Some es' ∧ es' !! f = Some z.
Proof.
  revert fs es. induction l as [|x l IH]; intros fs es Hl Hd Hf; [by exists es|].
  inversion Hl as [|? ? Hx Hl']; subst. simpl.
  destruct (addFile_preserves fs x d f es z Hx Hd Hf) as (es1 & H1 & Hf1).
  by apply (IH _ es1).
Qed.

Lemma fold_addFile_r (l : list zipfs.ZipFile) (fs : zipfs.Fs) :
  zipfs.r (fold_left zipfs.addFile l fs) = zipfs.r fs.
Proof.
  revert fs. induction l as [|x l IH]; intros fs; [done|]. simpl. rewrite IH.
  unfold zipfs.addFile. destruct (zipfs.zIsDir x); [reflexivity|].
  by destruct (zipfs.splitpath (zipfs.zName x)).
Qed.

(** X27.  [Open] finds the files of the archive: for a file entry of the
    archive whose name has a last element, when no later file entry has the
    same normalized name, [Open] on its name returns a handle on that very
    entry, not a directory, and no error; entries before it, and directory
    entries and other files after it, do not disturb it. *)
Theorem zipfs_Open_finds_file (r1 r2 : list zipfs.ZipFile) (file : zipfs.ZipFile) :
  zipfs.zIsDir file = false →
  snd (zipfs.splitpath (zipfs.zName file)) ≠ "" →
  Forall (λ x, zipfs.zIsDir x = true
               ∨ zipfs.splitpath (zipfs.zName x) ≠ zipfs.splitpath (zipfs.zName file)) r2 →
  zipfs.Open (zipfs.zName file) (zipfs.New (r1 ++ file :: r2)) =
    ((Some (zipfs.mkZFile (Some file) false), None), zipfs.New (r1 ++ file :: r2)).
Proof.
  intros Hd Hbase Hr2. unfold zipfs.New. rewrite fold_left_app. simpl fold_left.
  set (fs1 := fold_left zipfs.addFile r1 _).
  destruct (addFile_lookup fs1 file Hd) as (es & Hes & Hf).
  destruct (zipfs.splitpath (zipfs.zName file)) as [d f] eqn:Hs. simpl in *.
  destruct (fold_addFile_preserves r2 (zipfs.addFile fs1 file) d f es file Hr2 Hes Hf)
    as (es' & Hes' & Hf').
  unfold zipfs.Open. rewrite Hs. apply String.eqb_neq in Hbase. rewrite Hbase.
  by rewrite Hes', Hf', Hd.
Qed.

Lemma zipfs_Open_finds_file_witness :
  zipfs.Open "go/src/a.go"
    (zipfs.New ([zipfs.mkZipFile "go/" false] ++ zipfs.mkZipFile "go/src/a.go" false
                  :: [zipfs.mkZipFile "go/src/b.go" false; zipfs.mkZipFile "go/src/a.go/" false])) =
    ((Some (zipfs.mkZFile (Some (zipfs.mkZipFile "go/src/a.go" false)) false), None),
     zipfs.New ([zipfs.mkZipFile "go/" false] ++ zipfs.mkZipFile "go/src/a.go" false
                  :: [zipfs.mkZipFile "go/src/b.go" false; zipfs.mkZipFile "go/src/a.go/" false])).
Proof.
  apply (zipfs_Open_finds_file [zipfs.mkZipFile "go/" false]
           [zipfs.mkZipFile "go/src/b.go" false; zipfs.mkZipFile "go/src/a.go/" false]
           (zipfs.mkZipFile "go/src/a.go" false)).
  - reflexivity.
  - discriminate.
  - apply Forall_cons; split; [right; discriminate|].
    apply Forall_cons; split; [left; reflexivity|]. apply Forall_nil_2.
Defined.

(** X28.  [Open] and [Stat] of the archive backend agree: both leave the
    backend as it is; on a name that normalizes to the root both succeed with
    a directory, whatever the archive holds; on any other name they fail
    together, with the same error ([stat] as operation, also from [Open], the
    name as given, [ENOENT]), or succeed together with the same entry and
    directory flag. *)
Theorem zipfs_Open_Stat_agree (name : string) (fs : zipfs.Fs) :
  snd (zipfs.Open name fs) = fs ∧ snd (zipfs.Stat name fs) = fs
  ∧ snd (fst (zipfs.Open name fs)) = snd (fst (zipfs.Stat name fs))
  ∧ (zipfs.normalizePath name = "/" →
     fst (zipfs.Open name fs) = (Some (zipfs.mkZFile None true), None)
     ∧ fst (zipfs.Stat name fs) = (Some zipfs.pseudoRoot, None))
  ∧ (∀ e, snd (fst (zipfs.Open name fs)) = Some e → e = PathError "stat" name ENOENT)
  ∧ (∀ h, fst (fst (zipfs.Open name fs)) = Some h →
       ∃ fi, fst (fst (zipfs.Stat name fs)) = Some fi
             ∧ zipfs.IsDir fi = zipfs.isdir h
             ∧ match fi with
               | zipfs.pseudoRoot => zipfs.zipfile h = None
               | zipfs.zipInfo file => zipfs.zipfile h = Some file
               end).
Proof.
  unfold zipfs.Open, zipfs.Stat.
  assert (Hroot : zipfs.normalizePath name = "/" → snd (zipfs.splitpath name) = "").
  { intros E. unfold zipfs.splitpath. by rewrite E. }
  destruct (zipfs.splitpath name) as [d f] eqn:Hs. simpl in Hroot.
  destruct (String.eqb_spec f "") as [->|Hf].
  - repeat split; try done. intros h [= <-]. by exists zipfs.pseudoRoot.
  - assert (Hnr : zipfs.normalizePath name = "/" → False) by (intros E; by apply Hf, Hroot).
    destruct (zipfs.files fs !! d) as [es|]; [destruct (es !! f) as [file|]|]; simpl;
      repeat split; try done; try (intros e [= <-]; done).
    intros h [= <-]. by exists (zipfs.zipInfo file).
Qed.

(** ** Every entry of the archive, and every directory above it, opens *)

Lemma zipfs_splitpath_eq (name : string) :
  zipfs.splitpath name =
    (filepath.Dir (normalizePath name), snd (filepath.Split (normalizePath name))).
Proof.
  unfold zipfs.splitpath. cbv zeta. rewrite zipfs_normalizePath_eq.
  unfold filepath.Dir. by destruct (filepath.Split (normalizePath name)).
Qed.

Lemma zipfs_splitpath_normalized (name : string) :
  zipfs.splitpath (normalizePath name) = zipfs.splitpath name.
Proof. by rewrite !zipfs_splitpath_eq, normalizePath_idem. Qed.

Lemma length_Dir_canonical (d : string) :
  canonical d → d ≠ "/" →
  (String.length (filepath.Dir d) < String.length d)%nat.
Proof.
  intros (es & Hes & ->) Hne.
  destruct es as [|e es _] using rev_ind; [done|].
  apply Forall_app in Hes as [Hes He]. inversion He as [|? ? He' _]; subst.
  rewrite Dir_canon_snoc by done. apply length_canon_snoc, He'.
Qed.

Lemma iter_Dir_root (j : nat) : Nat.iter j filepath.Dir "/" = "/".
Proof. induction j as [|j IH]; [done|]. simpl. by rewrite IH. Qed.

Lemma iter_Dir_canonical (j : nat) (d : string) :
  canonical d → canonical (Nat.iter j filepath.Dir d).
Proof. intros Hd. induction j as [|j IH]; [done|]. simpl. by apply canonical_Dir. Qed.

Lemma ancestors_S (n : nat) (d : string) :
  zipfs.ancestors (S n) d =
    if String.eqb d "/" then [] else d :: zipfs.ancestors n (fst (zipfs.splitpath d)).
Proof. reflexivity. Qed.

Lemma ancestors_iter (j n : nat) (d : string) :
  canonical d → (String.length d < n)%nat →
  Nat.iter j filepath.Dir d = "/" ∨ Nat.iter j filepath.Dir d ∈ zipfs.ancestors n d.
Proof.
  revert n d. induction j as [|j IH]; intros n d Hd Hn;
    (destruct n as [|n]; [lia|]); rewrite ancestors_S;
    destruct (String.eqb_spec d "/") as [->|Hne].
  - by left.
  - right. simpl. apply elem_of_cons. by left.
  - left. apply iter_Dir_root.
  - rewrite Nat.iter_succ_r.
    rewrite zipfs_splitpath_eq, (normalizePath_canonical_id d Hd). simpl fst.
    pose proof (length_Dir_canonical d Hd Hne).
    destruct (IH n (filepath.Dir d)) as [H'|H']; [by apply canonical_Dir|lia|by left|].
    right. apply elem_of_cons. by right.
Qed.

Lemma listed_extends (a b : gmap string (gmap string zipfs.ZipFile)) (d f : string) :
  zipfs.extends a b → zipfs.listed a d f → zipfs.listed b d f.
Proof.
  intros H (es & z & Hd & Hf). destruct (H d es Hd) as (es' & Hd' & Hsub).
  exists es', z. split; [done|]. by eapply lookup_weaken.
Qed.

Lemma ensureDir_listed (fls : gmap string (gmap string zipfs.ZipFile))
    (parent dir : string) :
  zipfs.listed (fst (zipfs.ensureDir (fls, parent) dir)) parent
    (snd (zipfs.splitpath dir)).
Proof.
  unfold zipfs.ensureDir.
  set (base := snd (zipfs.splitpath dir)).
  set (fls1 := match default ∅ (fls !! parent) !! base with
               | Some _ => fls
               | None => <[parent := <[base := zipfs.mkZipFile (dir +:+ "/") false]>
                                      (default ∅ (fls !! parent))]> fls
               end).
  assert (H1 : zipfs.listed fls1 parent base).
  { unfold fls1. destruct (default ∅ (fls !! parent) !! base) as [z|] eqn:Hb.
    - destruct (fls !! parent) as [es|] eqn:Hp; simpl in Hb; [|done].
      by exists es, z.
    - eexists _, _. rewrite lookup_insert_eq. split; [done|]. by rewrite lookup_insert_eq. }
  change (zipfs.listed
            (fst (match fls1 !! dir with Some _ => fls1 | None => <[dir := ∅]> fls1 end, dir))
            parent base).
  simpl. destruct (fls1 !! dir) eqn:Hd; [done|].
  eapply listed_extends; [|exact H1]. by apply zipfs_extends_insert_new.
Qed.

(** The second loop of [mkdirAll], run over the directories the first loop
    found, ends below the deepest of them and has listed each one in its
    parent. *)
Lemma fold_ensureDir_chain (n : nat) (d : string)
    (fls : gmap string (gmap string zipfs.ZipFile)) :
  canonical d → (String.length d < n)%nat →
  snd (fold_left zipfs.ensureDir (rev (zipfs.ancestors n d)) (fls, "/")) = d
  ∧ ∀ k, k ∈ zipfs.ancestors n d →
      zipfs.listed (fst (fold_left zipfs.ensureDir (rev (zipfs.ancestors n d)) (fls, "/")))
        (fst (zipfs.splitpath k)) (snd (zipfs.splitpath k)).
Proof.
  revert d. induction n as [|n IH]; intros d Hd Hn; [lia|].
  rewrite ancestors_S. destruct (String.eqb_spec d "/") as [->|Hne].
  - split; [done|]. intros k Hk. by apply elem_of_nil in Hk.
  - assert (Hp : fst (zipfs.splitpath d) = filepath.Dir d)
      by (by rewrite zipfs_splitpath_eq, (normalizePath_canonical_id d Hd)).
    rewrite Hp. pose proof (length_Dir_canonical d Hd Hne) as Hlen.
    destruct (IH (filepath.Dir d)) as [Hsnd Hall]; [by apply canonical_Dir|lia|].
    simpl rev. rewrite fold_left_app. simpl fold_left.
    set (st := fold_left zipfs.ensureDir (rev (zipfs.ancestors n (filepath.Dir d))) (fls, "/")) in *.
    split; [apply ensureDir_snd|].
    intros k Hk. apply elem_of_cons in Hk as [->|Hk].
    + rewrite Hp, <- Hsnd. destruct st as [fls' parent]. apply ensureDir_listed.
    + eapply listed_extends; [|by apply Hall].
      destruct st as [fls' parent]. apply ensureDir_extends.
Qed.

Lemma mkdirAll_lists (path : string) (fs : zipfs.Fs) (j : nat) :
  Nat.iter j filepath.Dir (normalizePath path) = "/"
  ∨ zipfs.listed (zipfs.files (zipfs.mkdirAll path fs))
      (filepath.Dir (Nat.iter j filepath.Dir (normalizePath path)))
      (snd (filepath.Split (Nat.iter j filepath.Dir (normalizePath path)))).
Proof.
  unfold zipfs.mkdirAll. cbv zeta. cbn [zipfs.files].
  rewrite zipfs_normalizePath_eq.
  pose proof (canonical_normalizePath path) as Hc.
  destruct (ancestors_iter j (S (String.length (normalizePath path))) (normalizePath path) Hc)
    as [H|H]; [lia|by left|]. right.
  edestruct (fold_ensureDir_chain (S (String.length (normalizePath path))) (normalizePath path))
    as [_ Hall]; [exact Hc|lia|].
  specialize (Hall _ H). rewrite zipfs_splitpath_eq in Hall.
  rewrite (normalizePath_canonical_id _ (iter_Dir_canonical j _ Hc)) in Hall.
  exact Hall.
Qed.

Lemma addFile_keeps_listed (fs : zipfs.Fs) (x : zipfs.ZipFile) (d f : string) :
  zipfs.listed (zipfs.files fs) d f → zipfs.listed (zipfs.files (zipfs.addFile fs x)) d f.
Proof.
  intros H. unfold zipfs.addFile. destruct (zipfs.zIsDir x).
  - eapply listed_extends; [apply mkdirAll_extends|done].
  - destruct (zipfs.splitpath (zipfs.zName x)) as [d' f'] eqn:Hs. cbv zeta.
    cbn [zipfs.files].
    destruct (listed_extends _ _ d f (mkdirAll_extends d' fs) H) as (es & z & Hd & Hf).
    destruct (decide (d' = d)) as [->|Hne].
    + rewrite Hd. simpl. destruct (decide (f' = f)) as [->|Hnf].
      * eexists _, _. rewrite lookup_insert_eq. split; [done|]. by rewrite lookup_insert_eq.
      * eexists _, z. rewrite lookup_insert_eq. split; [done|]. by rewrite lookup_insert_ne.
    + exists es, z. by rewrite lookup_insert_ne.
Qed.

Lemma fold_addFile_keeps_listed (l : list zipfs.ZipFile) (fs : zipfs.Fs) (d f : string) :
  zipfs.listed (zipfs.files fs) d f →
  zipfs.listed (zipfs.files (fold_left zipfs.addFile l fs)) d f.
Proof.
  revert fs. induction l as [|x l IH]; intros fs H; [done|]. simpl.
  by apply IH, addFile_keeps_listed.
Qed.

Lemma addFile_lists (fs : zipfs.Fs) (x : zipfs.ZipFile) (j : nat) :
  Nat.iter j filepath.Dir (normalizePath (zipfs.zName x)) = "/"
  ∨ zipfs.listed (zipfs.files (zipfs.addFile fs x))
      (filepath.Dir (Nat.iter j filepath.Dir (normalizePath (zipfs.zName x))))
      (snd (filepath.Split (Nat.iter j filepath.Dir (normalizePath (zipfs.zName x))))).
Proof.
  unfold zipfs.addFile. destruct (zipfs.zIsDir x); [apply mkdirAll_lists|].
  rewrite zipfs_splitpath_eq. cbv zeta. cbn [zipfs.files].
  set (np := normalizePath (zipfs.zName x)).
  assert (Hc : canonical np) by apply canonical_normalizePath.
  destruct j as [|j].
  - right. eexists _, _. simpl Nat.iter. rewrite lookup_insert_eq. split; [done|].
    by rewrite lookup_insert_eq.
  - rewrite Nat.iter_succ_r.
    destruct (mkdirAll_lists (filepath.Dir np) fs j) as [H|H];
      rewrite (normalizePath_canonical_id _ (canonical_Dir _ Hc)) in H; [by left|].
    right. destruct H as (es & z & Hd & Hf).
    set (a := Nat.iter j filepath.Dir (filepath.Dir np)) in *.
    destruct (decide (filepath.Dir np = filepath.Dir a)) as [E|Hne].
    + rewrite <- E in *. rewrite Hd. simpl.
      destruct (decide (snd (filepath.Split np) = snd (filepath.Split a))) as [E'|Hnf].
      * rewrite <- E'. eexists _, _. rewrite lookup_insert_eq. split; [done|].
        by rewrite lookup_insert_eq.
      * eexists _, z. rewrite lookup_insert_eq. split; [done|]. by rewrite lookup_insert_ne.
    + exists es, z. by rewrite lookup_insert_ne.
Qed.

Lemma zipfs_Open_listed (name : string) (fs : zipfs.Fs) :
  normalizePath name = "/"
  ∨ zipfs.listed (zipfs.files fs) (filepath.Dir (normalizePath name))
      (snd (filepath.Split (normalizePath name))) →
  ∃ h, zipfs.Open name fs = ((Some h, None), fs).
Proof.
  intros H. unfold zipfs.Open. rewrite zipfs_splitpath_eq.
  destruct H as [->|(es & z & Hd & Hf)]; [by eexists|].
  destruct (String.eqb _ ""); [by eexists|]. rewrite Hd, Hf. by eexists.
Qed.

Lemma iter_parent_normalized (j : nat) (name : string) :
  normalizePath (Nat.iter j (λ p, fst (zipfs.splitpath p)) name) =
    Nat.iter j filepath.Dir (normalizePath name).
Proof.
  induction j as [|j IH]; [done|]. simpl.
  rewrite zipfs_splitpath_eq. simpl fst. rewrite IH.
  apply normalizePath_canonical_id, canonical_Dir, iter_Dir_canonical,
    canonical_normalizePath.
Qed.

(** X29.  Every entry of the archive can be opened by its name, and so can
    its parent directory, the parent of that, and so on up to the root,
    whether or not the archive has entries for these directories: [Open]
    returns a handle and no error. *)
Theorem zipfs_Open_every_entry (r : list zipfs.ZipFile) (x : zipfs.ZipFile) (j : nat) :
  x ∈ r →
  ∃ h, zipfs.Open (Nat.iter j (λ p, fst (zipfs.splitpath p)) (zipfs.zName x)) (zipfs.New r) =
         ((Some h, None), zipfs.New r).
Proof.
  intros Hx. apply list_elem_of_split in Hx as (r1 & r2 & ->).
  apply zipfs_Open_listed. rewrite iter_parent_normalized.
  unfold zipfs.New. rewrite fold_left_app. simpl fold_left.
  set (fs1 := fold_left zipfs.addFile r1 _).
  destruct (addFile_lists fs1 x j) as [H|H]; [by left|right].
  by apply fold_addFile_keeps_listed.
Qed.

Lemma zipfs_Open_every_entry_witness :
  ∃ h, zipfs.Open (Nat.iter 2 (λ p, fst (zipfs.splitpath p)) "go/src/fmt/print.go")
         (zipfs.New [zipfs.mkZipFile "go/src/fmt/print.go" false]) =
         ((Some h, None), zipfs.New [zipfs.mkZipFile "go/src/fmt/print.go" false]).
Proof.
  apply (zipfs_Open_every_entry [zipfs.mkZipFile "go/src/fmt/print.go" false]
           (zipfs.mkZipFile "go/src/fmt/print.go" false) 2).
  apply list_elem_of_here.
Defined.
